(** * Voxcribe: the Whisper transcription worker

    A shallow embedding of [src/utils/whisper.worker.js] (the singleton
    pipeline holder, the message handler, [transcribe] and the
    [GenerationTracker] class) together with the request the host sends from
    [App.jsx], and the properties of the streaming protocol proved on it.

    Modelling conventions.
    - JavaScript numbers that carry seconds are finite rationals ([Q]);
      [Math.round] is the exact "nearest integer, ties towards +infinity"
      of ECMAScript, so its results are integers ([Z]). Rational arithmetic
      is exact where doubles round; the two agree wherever the double
      operations are exact, as on integral starts with the stride 5.
    - The beam-update counter is a natural number (doubles count exactly up
      to 2^53).
    - A timestamp the engine could not determine is [null]: [option Q].
    - [undefined] flowing into a numeric message field is kept apart from
      numbers ([JsValue]).
    - The worker's effects are [postMessage], [console.log], the static
      [MyTranscriptionPipeline.instance] and exceptions: a state-and-exception
      monad over [World].
    - The message handler is an async function. [transcribe] and
      [onmessage] are one handler run from its message to its end;
      [event_loop] is the worker with handlers suspended at their awaits
      and resumed in any order, and running the handlers one after the
      other is one of its runs ([event_loop_one_at_a_time]).
    - The transformers.js engine is external: its tokenizer, its
      configuration and the callbacks it fires during one call are fields of
      [Pipeline]; the [pipeline] factory is a parameter of the development. *)

From stdpp Require Import base list.
From Stdlib Require Import ZArith QArith Qround String Ascii Lia Lqa.

Local Open Scope string_scope.
Local Open Scope list_scope.

(** ** JavaScript numbers and strings *)

(** [Math.round(x)]: floor(x + 1/2). *)
Definition Math_round (x : Q) : Z := Qfloor (x + (1 # 2)).

(** [Math.round(v)] where [v] may be [null]: ToNumber(null) is +0. *)
Definition Math_round_nullable (v : option Q) : Z :=
  match v with
  | Some x => Math_round x
  | None => 0%Z
  end.

(** [a || b] on integral numbers: 0 is the falsy one. *)
Definition number_or (a b : Z) : Z := if (a =? 0)%Z then b else a.

(** [a / b]; [None] stands for a non-finite quotient (Infinity or NaN). *)
Definition number_div (a b : Q) : option Q :=
  if Qeq_bool b 0 then None else Some (a / b)%Q.

(** White space and line terminators among the code units below 256. *)
Definition is_white_space (c : ascii) : bool :=
  let n := nat_of_ascii c in
  ((9 <=? n)%nat && (n <=? 13)%nat) || (n =? 32)%nat || (n =? 160)%nat.

Fixpoint trimStart (s : string) : string :=
  match s with
  | EmptyString => EmptyString
  | String c r => if is_white_space c then trimStart r else s
  end.

Fixpoint trimEnd (s : string) : string :=
  match s with
  | EmptyString => EmptyString
  | String c r =>
      match trimEnd r with
      | EmptyString =>
          if is_white_space c then EmptyString else String c EmptyString
      | r' => String c r'
      end
  end.

(** [s.trim()] *)
Definition trim (s : string) : string := trimEnd (trimStart s).

(** A numeric field that may hold [undefined]. *)
Inductive JsValue :=
| JsUndefined
| JsNumber (n : Z).

(** ** Exceptions and the worker monad *)

Inductive Exception :=
| TypeError (message : string)
| Error (message : string).

Definition err_message (e : Exception) : string :=
  match e with
  | TypeError m => m
  | Error m => m
  end.

Inductive Completion (A : Type) :=
| Normal (a : A)
| Throw (e : Exception).
Arguments Normal {A} a.
Arguments Throw {A} e.

Definition M (S A : Type) : Type := S -> Completion A * S.

Definition ret {S A} (a : A) : M S A := fun s => (Normal a, s).

Definition bind {S A B} (c : M S A) (k : A -> M S B) : M S B :=
  fun s =>
    match c s with
    | (Normal a, s') => k a s'
    | (Throw e, s') => (Throw e, s')
    end.

Definition throw {S A} (e : Exception) : M S A := fun s => (Throw e, s).

(** [try { c } catch (err) { h err }] *)
Definition try_catch {S A} (c : M S A) (h : Exception -> M S A) : M S A :=
  fun s =>
    match c s with
    | (Normal a, s') => (Normal a, s')
    | (Throw e, s') => h e s'
    end.

Definition get {S} : M S S := fun s => (Normal s, s).

Definition modify {S} (f : S -> S) : M S unit := fun s => (Normal tt, f s).

Notation "x <- c ;; k" := (bind c (fun x => k))
  (at level 100, c at next level, right associativity).
Notation "c ;;; k" := (bind c (fun _ => k))
  (at level 100, right associativity).

Fixpoint for_each {S A} (f : A -> M S unit) (l : list A) : M S unit :=
  match l with
  | [] => ret tt
  | x :: l' => f x ;;; for_each f l'
  end.

(** ** Data exchanged with the engine and with the host *)

(** A chunk as [_decode_asr] returns it: [{ text, timestamp: [start, end] }]. *)
Record RawChunk := {
  text : string;
  timestamp : Q * option Q
}.

(** What [processChunk] builds: [{ index, text, start, end }]. *)
Record ProcessedChunk := {
  index : nat;
  p_text : string;
  start : Z;
  end_ : Z
}.

(** What [callbackFunction] builds: [{ text, start, end: undefined }]. *)
Record PartialResult := {
  r_text : string;
  r_start : JsValue;
  r_end : JsValue
}.

(** [MessageTypes] of [presets.js], by the names the worker and [App.jsx]
    use. *)
Inductive MessageTypes :=
| DOWNLOADING
| LOADING
| RESULT
| RESULT_PARTIAL
| INFERENCE_REQUEST
| INFERENCE_DONE.

Global Instance MessageTypes_eq_dec : EqDecision MessageTypes.
Proof. solve_decision. Defined.

(** The objects handed to [self.postMessage]. *)
Inductive Message :=
| MsgLoading (status : string)
| MsgDownloading (file : string) (progress : Q) (loaded total : Z)
| MsgResult (results : list ProcessedChunk) (isDone : bool)
            (completedUntilTimestamp : JsValue)
| MsgResultPartial (result : PartialResult)
| MsgInferenceDone.

Definition msg_type (m : Message) : MessageTypes :=
  match m with
  | MsgLoading _ => LOADING
  | MsgDownloading _ _ _ _ => DOWNLOADING
  | MsgResult _ _ _ => RESULT
  | MsgResultPartial _ => RESULT_PARTIAL
  | MsgInferenceDone => INFERENCE_DONE
  end.

(** The data object the loader passes to its progress callback. *)
Record ProgressData := {
  pd_status : string;
  pd_file : string;
  pd_progress : Q;
  pd_loaded : Z;
  pd_total : Z
}.

(** The options object of the inference call. *)
Record RunOptions := {
  opt_top_k : Z;
  opt_do_sample : bool;
  opt_chunk_length : Z;
  opt_stride_length_s : Q;
  opt_return_timestamps : bool
}.

(** How the promise of an engine call settles. *)
Inductive Settled :=
| Resolved
| Rejected (message : string).

Section Worker.

(** The audio buffer, the decoder's token ids and the per-chunk objects the
    engine passes to [chunk_callback] are opaque to the worker. *)
Context {Audio Token ChunkData : Type}.

Record Beam := { output_token_ids : list Token }.

(** One callback the engine fires while it runs. *)
Inductive EngineEvent :=
| BeamUpdate (beams : list Beam)
| ChunkFinalized (data : ChunkData).

(** The engine behind [await pipeline(task, ...)]: the parts of it the
    worker touches. [call] is the engine applied to an audio buffer: the
    callbacks it fires, in order, and how its promise settles. *)
Record Pipeline := {
  tokenizer_decode : list Token -> string;
  tokenizer_decode_asr : list ChunkData -> option Q -> string * list RawChunk;
  config_chunk_length : Q;
  config_max_source_positions : Q;
  call : Audio -> RunOptions -> list EngineEvent * Settled
}.

Inductive LoadResult :=
| Built (p : Pipeline)
| Failed (message : string).

(** One run of the imported [pipeline] factory: the progress data it
    reports and its result. *)
Record Load := {
  progress_events : list ProgressData;
  load_result : LoadResult
}.

(** The imported [pipeline(task, model, options)] of transformers.js: the
    behaviour of its n-th call. *)
Variable pipeline_factory : nat -> string -> option string -> Load.

(** The worker global scope: the static [instance] of
    [MyTranscriptionPipeline], the messages posted to the host, the
    console, and the number of factory calls made so far. *)
Record World := {
  instance : option Pipeline;
  outbox : list Message;
  console : list string;
  pipeline_calls : nat
}.

Definition postMessage (m : Message) : M World unit :=
  modify (fun w =>
    {| instance := instance w; outbox := outbox w ++ [m];
       console := console w; pipeline_calls := pipeline_calls w |}).

Definition console_log (s : string) : M World unit :=
  modify (fun w =>
    {| instance := instance w; outbox := outbox w;
       console := console w ++ [s]; pipeline_calls := pipeline_calls w |}).

Definition set_instance (i : option Pipeline) : M World unit :=
  modify (fun w =>
    {| instance := i; outbox := outbox w;
       console := console w; pipeline_calls := pipeline_calls w |}).

Definition count_pipeline_call : M World nat :=
  fun w =>
    (Normal (pipeline_calls w),
     {| instance := instance w; outbox := outbox w;
        console := console w; pipeline_calls := S (pipeline_calls w) |}).

(** [await pipeline(task, model, { progress_callback })] *)
Definition pipeline (task : string) (model : option string)
    (progress_callback : ProgressData -> M World unit) : M World Pipeline :=
  n <- count_pipeline_call ;;
  let load := pipeline_factory n task model in
  for_each progress_callback (progress_events load) ;;;
  match load_result load with
  | Built p => ret p
  | Failed m => throw (Error m)
  end.

(** *** Message constructors *)

Definition sendLoadingMessage (status : string) : M World unit :=
  postMessage (MsgLoading status).

Definition sendDownloadingMessage (file : string) (progress : Q)
    (loaded total : Z) : M World unit :=
  postMessage (MsgDownloading file progress loaded total).

Definition load_model_callback (data : ProgressData) : M World unit :=
  if String.eqb (pd_status data) "progress" then
    sendDownloadingMessage (pd_file data) (pd_progress data)
                           (pd_loaded data) (pd_total data)
  else ret tt.

Definition createResultMessage (results : list ProcessedChunk)
    (isDone : bool) (completedUntilTimestamp : JsValue) : M World unit :=
  postMessage (MsgResult results isDone completedUntilTimestamp).

Definition createPartialResultMessage (result : PartialResult)
    : M World unit :=
  postMessage (MsgResultPartial result).

(** *** MyTranscriptionPipeline *)

Definition task : string := "automatic-speech-recognition".
Definition model : string := "openai/whisper-tiny.en".

Definition getInstance (progress_callback : ProgressData -> M World unit)
    : M World Pipeline :=
  w <- get ;;
  match instance w with
  | None =>
      p <- pipeline task None progress_callback ;;
      set_instance (Some p) ;;;
      ret p
  | Some p => ret p
  end.

(** *** GenerationTracker *)

Record GenerationTracker := {
  this_pipeline : Pipeline;
  stride_length_s : Q;
  chunks : list ChunkData;
  time_precision : option Q;
  processed_chunks : list ProcessedChunk;
  callbackFunctionCounter : nat
}.

(** [new GenerationTracker(pipeline, stride_length_s)]. With [pipeline]
    undefined the optional chain on the left of the division yields
    [undefined] and reading [pipeline.model] on its right throws. *)
Definition new_GenerationTracker (pipeline : option Pipeline)
    (stride_length_s : Q) : M World GenerationTracker :=
  match pipeline with
  | None =>
      throw (TypeError
               "Cannot read properties of undefined (reading 'model')")
  | Some p =>
      ret {| this_pipeline := p;
             stride_length_s := stride_length_s;
             chunks := [];
             time_precision :=
               number_div (config_chunk_length p)
                          (config_max_source_positions p);
             processed_chunks := [];
             callbackFunctionCounter := 0 |}
  end.

Definition sendFinalResult (this : GenerationTracker) : M World unit :=
  postMessage MsgInferenceDone.

(** The method returns 0 inside its only [if]; otherwise control falls off
    the end of the body. *)
Definition getLastChunkTimestamp (this : GenerationTracker) : JsValue :=
  if (List.length (processed_chunks this) =? 0)%nat then JsNumber 0
  else JsUndefined.

Definition processChunk (this : GenerationTracker) (chunk : RawChunk)
    (index : nat) : ProcessedChunk :=
  let '(start, end_) := timestamp chunk in
  {| index := index;
     p_text := trim (text chunk);
     start := Math_round start;
     end_ := number_or (Math_round_nullable end_)
               (Math_round (start + (9 # 10) * stride_length_s this)) |}.

Definition callbackFunction (this : GenerationTracker) (beams : list Beam)
    : M World GenerationTracker :=
  let this :=
    {| this_pipeline := this_pipeline this;
       stride_length_s := stride_length_s this;
       chunks := chunks this;
       time_precision := time_precision this;
       processed_chunks := processed_chunks this;
       callbackFunctionCounter := callbackFunctionCounter this + 1 |} in
  if negb (callbackFunctionCounter this mod 10 =? 0)%nat then ret this
  else
    match beams with
    | [] =>
        throw (TypeError
          "Cannot read properties of undefined (reading 'output_token_ids')")
    | bestBeam :: _ =>
        let text :=
          tokenizer_decode (this_pipeline this) (output_token_ids bestBeam) in
        let result :=
          {| r_text := text;
             r_start := getLastChunkTimestamp this;
             r_end := JsUndefined |} in
        createPartialResultMessage result ;;;
        ret this
    end.

Definition chunkCallback (this : GenerationTracker) (data : ChunkData)
    : M World GenerationTracker :=
  let pushed := chunks this ++ [data] in
  let '(_, decoded) :=
    tokenizer_decode_asr (this_pipeline this) pushed (time_precision this) in
  let this :=
    {| this_pipeline := this_pipeline this;
       stride_length_s := stride_length_s this;
       chunks := pushed;
       time_precision := time_precision this;
       processed_chunks :=
         imap (fun index chunk => processChunk this chunk index) decoded;
       callbackFunctionCounter := callbackFunctionCounter this |} in
  createResultMessage (processed_chunks this) false
                      (getLastChunkTimestamp this) ;;;
  ret this.

(** *** The inference call *)

Definition on_event (this : GenerationTracker) (ev : EngineEvent)
    : M World GenerationTracker :=
  match ev with
  | BeamUpdate beams => callbackFunction this beams
  | ChunkFinalized data => chunkCallback this data
  end.

Fixpoint run_callbacks (this : GenerationTracker) (evs : list EngineEvent)
    : M World GenerationTracker :=
  match evs with
  | [] => ret this
  | ev :: evs' => this' <- on_event this ev ;; run_callbacks this' evs'
  end.

(** [await pipeline(audio, { ..., callback_function, chunk_callback })]:
    the engine fires its callbacks on the tracker; an exception of a
    callback or of the engine rejects the call. *)
Definition call_pipeline (pipeline : option Pipeline) (audio : Audio)
    (opts : RunOptions) (this : GenerationTracker)
    : M World GenerationTracker :=
  match pipeline with
  | None => throw (TypeError "pipeline is not a function")
  | Some p =>
      let '(events, settled) := call p audio opts in
      this' <- run_callbacks this events ;;
      match settled with
      | Resolved => ret this'
      | Rejected m => throw (Error m)
      end
  end.

Definition run_options (stride_length_s : Q) : RunOptions :=
  {| opt_top_k := 0;
     opt_do_sample := false;
     opt_chunk_length := 30;
     opt_stride_length_s := stride_length_s;
     opt_return_timestamps := true |}.

Definition transcribe (audio : Audio) : M World unit :=
  sendLoadingMessage "loading" ;;;
  pipeline <-
    try_catch (p <- getInstance load_model_callback ;; ret (Some p))
              (fun err => console_log (err_message err) ;;; ret None) ;;
  sendLoadingMessage "success" ;;;
  let stride_length_s : Q := 5 in
  generationTracker <- new_GenerationTracker pipeline stride_length_s ;;
  generationTracker <-
    call_pipeline pipeline audio (run_options stride_length_s)
                  generationTracker ;;
  sendFinalResult generationTracker.

(** What is left of [transcribe] once [pipeline] holds the engine [p] and
    both Loading messages are out. *)
Definition run_request (p : Pipeline) (audio : Audio) : M World unit :=
  generationTracker <- new_GenerationTracker (Some p) 5 ;;
  generationTracker <-
    call_pipeline (Some p) audio (run_options 5) generationTracker ;;
  sendFinalResult generationTracker.

(** *** The message handler *)

(** [event.data] as [handleFormSubmission] posts it. *)
Record EventData := {
  type : MessageTypes;
  audio : Audio;
  model_name : string
}.

Definition onmessage (data : EventData) : M World unit :=
  let type := type data in
  let audio := audio data in
  if decide (type = INFERENCE_REQUEST) then transcribe audio
  else ret tt.

(** One handler run from its message to its end with nothing in between; a
    rejected handler leaves the world as it was when it threw. *)
Definition dispatch (w : World) (data : EventData) : World :=
  snd (onmessage data w).

(** *** The event loop

    The handler is an async function: it is suspended while the factory
    loads ([await pipeline(task, ...)] in [getInstance]) and while the
    engine runs ([await pipeline(audio, ...)] in [transcribe]), and other
    messages and the callbacks of other requests are handled meanwhile. A
    suspended handler is a job; what runs between two suspensions is one
    turn of the loop. *)
Inductive Job :=
| AwaitingLoad (audio : Audio) (progress : list ProgressData)
               (result : LoadResult)
| AwaitingRun (this : GenerationTracker) (events : list EngineEvent)
              (settled : Settled).

(** [transcribe] from the end of [await getInstance] to the engine's
    call. *)
Definition after_getInstance (pipeline : option Pipeline) (audio : Audio)
    : M World Job :=
  sendLoadingMessage "success" ;;;
  let stride_length_s : Q := 5 in
  generationTracker <- new_GenerationTracker pipeline stride_length_s ;;
  match pipeline with
  | None => throw (TypeError "pipeline is not a function")
  | Some p =>
      let '(events, settled) := call p audio (run_options stride_length_s) in
      ret (AwaitingRun generationTracker events settled)
  end.

(** The handler from its message to its first suspension: with an instance
    [getInstance] does not wait, without one the factory is called and the
    handler waits for the load. *)
Definition deliver (data : EventData) : M World (option Job) :=
  let type := type data in
  let audio := audio data in
  if decide (type = INFERENCE_REQUEST) then
    sendLoadingMessage "loading" ;;;
    w <- get ;;
    match instance w with
    | Some p => j <- after_getInstance (Some p) audio ;; ret (Some j)
    | None =>
        n <- count_pipeline_call ;;
        let load := pipeline_factory n task None in
        ret (Some (AwaitingLoad audio (progress_events load)
                                (load_result load)))
    end
  else ret None.

(** A suspended handler resumed for one turn: a progress callback of the
    load; the end of the load, where [instance] is assigned (or the error
    logged) and the handler goes on to the engine's call; a callback of the
    run; the end of the run. *)
Definition resume (j : Job) : M World (option Job) :=
  match j with
  | AwaitingLoad audio (data :: progress) result =>
      load_model_callback data ;;;
      ret (Some (AwaitingLoad audio progress result))
  | AwaitingLoad audio [] (Built p) =>
      set_instance (Some p) ;;;
      j' <- after_getInstance (Some p) audio ;;
      ret (Some j')
  | AwaitingLoad audio [] (Failed m) =>
      console_log (err_message (Error m)) ;;;
      j' <- after_getInstance None audio ;;
      ret (Some j')
  | AwaitingRun this (ev :: events) settled =>
      this' <- on_event this ev ;;
      ret (Some (AwaitingRun this' events settled))
  | AwaitingRun this [] Resolved =>
      sendFinalResult this ;;; ret None
  | AwaitingRun this [] (Rejected m) => throw (Error m)
  end.

(** The worker between two turns: its global scope, the messages not yet
    delivered, and the suspended handlers. *)
Record WorkerState := {
  world : World;
  inbox : list EventData;
  jobs : list Job
}.

(** A turn delivers the next message or resumes the i-th suspended
    handler. *)
Inductive Turn :=
| Deliver
| Resume (i : nat).

(** The job a turn leaves behind: none when the handler ended or threw. *)
Definition suspended (c : Completion (option Job)) : list Job :=
  match c with
  | Normal (Some j) => [j]
  | _ => []
  end.

Definition turn (s : WorkerState) (t : Turn) : WorkerState :=
  match t with
  | Deliver =>
      match inbox s with
      | [] => s
      | data :: rest =>
          let '(c, w) := deliver data (world s) in
          {| world := w; inbox := rest; jobs := jobs s ++ suspended c |}
      end
  | Resume i =>
      match jobs s !! i with
      | None => s
      | Some j =>
          let '(c, w) := resume j (world s) in
          {| world := w; inbox := inbox s;
             jobs := take i (jobs s) ++ suspended c ++ drop (S i) (jobs s) |}
      end
  end.

(** The worker over any order of turns. *)
Definition event_loop (turns : list Turn) (s : WorkerState) : WorkerState :=
  fold_left turn turns s.

End Worker.

Arguments Pipeline : clear implicits.
Arguments World : clear implicits.
Arguments GenerationTracker : clear implicits.
Arguments EngineEvent : clear implicits.
Arguments EventData : clear implicits.
Arguments Load : clear implicits.
Arguments Job : clear implicits.
Arguments WorkerState : clear implicits.

(** The handler waits for the engine's run, not for a load. *)
Definition awaits_run {Audio Token ChunkData}
    (j : Job Audio Token ChunkData) : bool :=
  match j with
  | AwaitingRun _ _ _ => true
  | AwaitingLoad _ _ _ => false
  end.

(** The world after the messages [ms] have been posted. *)
Definition post {Audio Token ChunkData}
    (w : World Audio Token ChunkData) (ms : list Message)
    : World Audio Token ChunkData :=
  {| instance := instance w; outbox := outbox w ++ ms;
     console := console w; pipeline_calls := pipeline_calls w |}.

(** The messages [load_model_callback] posts for a run of progress data. *)
Definition downloading_messages (ds : list ProgressData) : list Message :=
  flat_map
    (fun d =>
       if String.eqb (pd_status d) "progress" then
         [MsgDownloading (pd_file d) (pd_progress d) (pd_loaded d) (pd_total d)]
       else [])
    ds.

(** The engine a request gets from [getInstance]: the stored instance, or the
    one the next factory call builds. *)
Definition engine_of {Audio Token ChunkData}
    (factory : nat -> string -> option string -> Load Audio Token ChunkData)
    (w : World Audio Token ChunkData)
    : option (Pipeline Audio Token ChunkData) :=
  match instance w with
  | Some p => Some p
  | None =>
      match load_result (factory (pipeline_calls w) task None) with
      | Built p => Some p
      | Failed _ => None
      end
  end.

(** A request fails when no engine can be had, or when the engine's call on
    its audio is rejected. *)
Definition request_fails {Audio Token ChunkData}
    (factory : nat -> string -> option string -> Load Audio Token ChunkData)
    (w : World Audio Token ChunkData) (audio : Audio) : Prop :=
  match engine_of factory w with
  | None => True
  | Some p => exists m, snd (call p audio (run_options 5)) = Rejected m
  end.

(** The engine passed at least one beam, so that [beams[0]] is a beam. *)
Definition has_beam {Token ChunkData} (ev : EngineEvent Token ChunkData)
    : bool :=
  match ev with
  | BeamUpdate [] => false
  | _ => true
  end.

(** The chunks an engine run finalizes, in order. *)
Fixpoint finalized {Token ChunkData}
    (evs : list (EngineEvent Token ChunkData)) : list ChunkData :=
  match evs with
  | [] => []
  | ChunkFinalized d :: evs' => d :: finalized evs'
  | BeamUpdate _ :: evs' => finalized evs'
  end.

Definition is_result (m : Message) : bool :=
  match m with
  | MsgResult _ _ _ => true
  | _ => false
  end.

(** ** A concrete engine for the scenarios

    Audio is immaterial, tokens are words, and the engine hands the tracker
    chunks that already carry their text and timestamps, which its
    [_decode_asr] returns unchanged. *)
Module Scenario.

Definition engine (script : list (EngineEvent string RawChunk) * Settled)
    : Pipeline unit string RawChunk :=
  {| tokenizer_decode := String.concat " ";
     tokenizer_decode_asr :=
       fun cs _ => (String.concat "" (map text cs), cs);
     config_chunk_length := 30;
     config_max_source_positions := 1500;
     call := fun _ _ => script |}.

Definition loads (script : list (EngineEvent string RawChunk) * Settled)
    : nat -> string -> option string -> Load unit string RawChunk :=
  fun _ _ _ =>
    {| progress_events :=
         [ {| pd_status := "initiate"; pd_file := "model.onnx";
              pd_progress := 0; pd_loaded := 0; pd_total := 0 |};
           {| pd_status := "progress"; pd_file := "model.onnx";
              pd_progress := 50; pd_loaded := 512; pd_total := 1024 |} ];
       load_result := Built (engine script) |}.

Definition load_fails
    : nat -> string -> option string -> Load unit string RawChunk :=
  fun _ _ _ =>
    {| progress_events := []; load_result := Failed "Failed to fetch" |}.

Definition fresh : World unit string RawChunk :=
  {| instance := None; outbox := []; console := []; pipeline_calls := 0 |}.

Definition loaded (script : list (EngineEvent string RawChunk) * Settled)
    : World unit string RawChunk :=
  {| instance := Some (engine script); outbox := []; console := [];
     pipeline_calls := 1 |}.

(** The tracker [transcribe] builds on [engine script]. *)
Definition tracker (script : list (EngineEvent string RawChunk) * Settled)
    : GenerationTracker unit string RawChunk :=
  {| this_pipeline := engine script;
     stride_length_s := 5;
     chunks := [];
     time_precision := number_div 30 1500;
     processed_chunks := [];
     callbackFunctionCounter := 0 |}.

Definition chunk (t : string) (s : Q) (e : option Q) : RawChunk :=
  {| text := t; timestamp := (s, e) |}.

Definition beam (word : string) : list (@Beam string) :=
  [ {| output_token_ids := [word] |} ].

(** The k-th of a run of beam updates carries the number k as its word. *)
Definition numbered_updates (n : nat) : list (EngineEvent string RawChunk) :=
  map (fun k => BeamUpdate (beam (String (ascii_of_nat (64 + k)) "")))
      (seq 1 n).

(** Three finalized chunks, the second ending before it starts. *)
Definition malformed_second : list (EngineEvent string RawChunk) * Settled :=
  ([ ChunkFinalized (chunk " one" 0 (Some 2));
     ChunkFinalized (chunk " two" 5 (Some 3));
     ChunkFinalized (chunk " three" 6 (Some 8)) ],
   Resolved).

(** A factory that builds the engine for the null model identifier only. *)
Definition loads_null_only
    (script : list (EngineEvent string RawChunk) * Settled)
    : nat -> string -> option string -> Load unit string RawChunk :=
  fun n t m =>
    match m with
    | None => loads script n t None
    | Some _ => load_fails n t m
    end.

(** The message [handleFormSubmission] posts. *)
Definition request (name : string) : EventData unit :=
  {| type := INFERENCE_REQUEST; audio := tt; model_name := name |}.

(** A merge that returns two chunks for each chunk fed: the first second,
    and the rest. *)
Definition split_merge (cs : list RawChunk) : list RawChunk :=
  flat_map
    (fun c =>
       [ {| text := text c;
            timestamp := (fst (timestamp c),
                          Some (fst (timestamp c) + 1)%Q) |};
         {| text := text c;
            timestamp := ((fst (timestamp c) + 1)%Q,
                          snd (timestamp c)) |} ])
    cs.

Definition splitting_engine
    (script : list (EngineEvent string RawChunk) * Settled)
    : Pipeline unit string RawChunk :=
  {| tokenizer_decode := String.concat " ";
     tokenizer_decode_asr :=
       fun cs _ => (String.concat "" (map text cs), split_merge cs);
     config_chunk_length := 30;
     config_max_source_positions := 1500;
     call := fun _ _ => script |}.

(** One finalized chunk. *)
Definition one_chunk : list (EngineEvent string RawChunk) * Settled :=
  ([ ChunkFinalized (chunk " one two" 0 (Some 4)) ], Resolved).

(** An engine whose call is rejected after one finalized chunk. *)
Definition rejected_run : list (EngineEvent string RawChunk) * Settled :=
  ([ ChunkFinalized (chunk " one" 0 (Some 2)) ], Rejected "out of memory").

End Scenario.

(** ** What a run of callbacks posts *)

Definition is_partial (m : Message) : bool :=
  match m with
  | MsgResultPartial _ => true
  | _ => false
  end.

(** The number of beam updates among the callbacks of a run. *)
Fixpoint beam_updates {Token ChunkData}
    (evs : list (EngineEvent Token ChunkData)) : nat :=
  match evs with
  | [] => 0
  | BeamUpdate _ :: evs' => S (beam_updates evs')
  | ChunkFinalized _ :: evs' => beam_updates evs'
  end.

(** A Result that is not final and whose segments are numbered from 0, or a
    PartialResult without end. *)
Definition streaming_update (m : Message) : Prop :=
  match m with
  | MsgResult results isDone _ =>
      isDone = false /\ index <$> results = seq 0 (List.length results)
  | MsgResultPartial result => r_end result = JsUndefined
  | _ => False
  end.

(** The Downloading messages of a request: those of the load it triggers
    when there is no instance yet. *)
Definition first_load_messages {Audio Token ChunkData}
    (factory : nat -> string -> option string -> Load Audio Token ChunkData)
    (w : World Audio Token ChunkData) : list Message :=
  match instance w with
  | Some _ => []
  | None =>
      downloading_messages
        (progress_events (factory (pipeline_calls w) task None))
  end.

(** What a request logs on the console: the message of a failed load. *)
Definition load_error {Audio Token ChunkData}
    (factory : nat -> string -> option string -> Load Audio Token ChunkData)
    (w : World Audio Token ChunkData) : list string :=
  match instance w with
  | Some _ => []
  | None =>
      match load_result (factory (pipeline_calls w) task None) with
      | Built _ => []
      | Failed m => [m]
      end
  end.

(** The Done message of a request that ran to its end. *)
Definition final_message {A} (c : Completion A) : list Message :=
  match c with
  | Normal _ => [MsgInferenceDone]
  | Throw _ => []
  end.

Definition is_request {Audio} (d : EventData Audio) : bool :=
  bool_decide (type d = INFERENCE_REQUEST).

Fixpoint all_white_space (s : string) : bool :=
  match s with
  | EmptyString => true
  | String c r => is_white_space c && all_white_space r
  end.

Definition first_char (s : string) : option ascii :=
  match s with
  | EmptyString => None
  | String c _ => Some c
  end.

Fixpoint last_char (s : string) : option ascii :=
  match s with
  | EmptyString => None
  | String c EmptyString => Some c
  | String _ r => last_char r
  end.

(** ** The host page: [App.jsx] *)

(** What [console.log] receives in the page. *)
Inductive LogEntry :=
| LogText (s : string)
| LogResults (results : option (list ProcessedChunk)).

(** [e.data.results]: present on Result messages only. *)
Definition data_results (m : Message) : option (list ProcessedChunk) :=
  match m with
  | MsgResult results _ _ => Some results
  | _ => None
  end.

(** The screen [App] renders. *)
Inductive View :=
| InformationView (output : list ProcessedChunk) (finished : bool)
| TranscribingView
| FileDisplayView
| HomePageView.

Section App.

(** [File] and [Blob] objects are opaque; so is the audio decoding of
    [readAudioFrom], taken to succeed. The string values of [MessageTypes]
    are those of [presets.js]. Each event is handled on the state the
    previous one left. *)
Context {Audio Source : Type}.
Variable MessageTypes_value : MessageTypes -> string.
Variable readAudioFrom : Source -> Audio.

(** The state hooks of [App] and the page's console. *)
Record AppState := {
  file : option Source;
  audioStream : option Source;
  output : option (list ProcessedChunk);
  downloading : bool;
  loading : bool;
  finished : bool;
  app_console : list LogEntry
}.

Definition App_initial : AppState :=
  {| file := None; audioStream := None; output := None;
     downloading := false; loading := false; finished := false;
     app_console := [] |}.

Definition setFile (v : option Source) (a : AppState) : AppState :=
  {| file := v; audioStream := audioStream a; output := output a;
     downloading := downloading a; loading := loading a;
     finished := finished a; app_console := app_console a |}.

Definition setAudioStream (v : option Source) (a : AppState) : AppState :=
  {| file := file a; audioStream := v; output := output a;
     downloading := downloading a; loading := loading a;
     finished := finished a; app_console := app_console a |}.

Definition setOutput (v : option (list ProcessedChunk)) (a : AppState)
    : AppState :=
  {| file := file a; audioStream := audioStream a; output := v;
     downloading := downloading a; loading := loading a;
     finished := finished a; app_console := app_console a |}.

Definition setDownloading (v : bool) (a : AppState) : AppState :=
  {| file := file a; audioStream := audioStream a; output := output a;
     downloading := v; loading := loading a;
     finished := finished a; app_console := app_console a |}.

Definition setLoading (v : bool) (a : AppState) : AppState :=
  {| file := file a; audioStream := audioStream a; output := output a;
     downloading := downloading a; loading := v;
     finished := finished a; app_console := app_console a |}.

Definition setFinished (v : bool) (a : AppState) : AppState :=
  {| file := file a; audioStream := audioStream a; output := output a;
     downloading := downloading a; loading := loading a;
     finished := v; app_console := app_console a |}.

Definition app_log (e : LogEntry) (a : AppState) : AppState :=
  {| file := file a; audioStream := audioStream a; output := output a;
     downloading := downloading a; loading := loading a;
     finished := finished a; app_console := app_console a ++ [e] |}.

(** [file || audioStream], as a condition. *)
Definition isAudioAvailable (a : AppState) : bool :=
  match file a, audioStream a with
  | None, None => false
  | _, _ => true
  end.

Definition handleAudioReset (a : AppState) : AppState :=
  setAudioStream None (setFile None a).

(** The [switch (e.data.type)] of the page's message handler. *)
Definition onMessageReceived (m : Message) (a : AppState) : AppState :=
  let type := MessageTypes_value (msg_type m) in
  if String.eqb type "DOWNLOADING" then
    app_log (LogText "DOWNLOADING") (setDownloading true a)
  else if String.eqb type "LOADING" then
    app_log (LogText "LOADING") (setLoading true a)
  else if String.eqb type "RESULT" then
    app_log (LogResults (data_results m)) (setOutput (data_results m) a)
  else if String.eqb type "INFERENCE_DONE" then
    app_log (LogText "DONE") (setFinished true a)
  else a.

(** The message [handleFormSubmission] posts to the worker, if any. *)
Definition handleFormSubmission (a : AppState) : option (EventData Audio) :=
  match file a, audioStream a with
  | None, None => None
  | Some f, _ | None, Some f =>
      let audio := readAudioFrom f in
      let model_name := "openai/whisper-tiny.en" in
      Some {| type := INFERENCE_REQUEST; audio := audio;
              model_name := model_name |}
  end.

(** The element [App] returns, by the screen it selects. *)
Definition render (a : AppState) : View :=
  match output a with
  | Some o => InformationView o (finished a)
  | None =>
      if loading a then TranscribingView
      else if isAudioAvailable a then FileDisplayView
      else HomePageView
  end.

(** The page handling the messages of the worker in the order posted. *)
Definition receive_all (ms : list Message) (a : AppState) : AppState :=
  fold_left (fun a m => onMessageReceived m a) ms a.

End App.

Arguments AppState : clear implicits.

(** The [MessageTypes] values the page's [switch] relies on: the four it
    handles are their own names and partial results are none of them. *)
Definition presets_as_named (value : MessageTypes -> string) : Prop :=
  value DOWNLOADING = "DOWNLOADING"
  /\ value LOADING = "LOADING"
  /\ value RESULT = "RESULT"
  /\ value INFERENCE_DONE = "INFERENCE_DONE"
  /\ ~ In (value RESULT_PARTIAL)
          ["DOWNLOADING"; "LOADING"; "RESULT"; "INFERENCE_DONE"].

(** The messages posted between two worlds. *)
Definition new_messages {Audio Token ChunkData}
    (w w' : World Audio Token ChunkData) : list Message :=
  drop (List.length (outbox w)) (outbox w').

(** A click on Transcribe: the page posts its request, the worker handles
    it, and the page handles what the worker posted. *)
Definition submit {Audio Token ChunkData Source}
    (value : MessageTypes -> string) (readAudioFrom : Source -> Audio)
    (factory : nat -> string -> option string -> Load Audio Token ChunkData)
    (a : AppState Source) (w : World Audio Token ChunkData)
    : AppState Source * World Audio Token ChunkData :=
  match handleFormSubmission readAudioFrom a with
  | None => (a, w)
  | Some d =>
      let w' := dispatch factory w d in
      (receive_all value (new_messages w w') a, w')
  end.

(** ** The result screen: the [Information] component *)

(** A message of the translation worker: [{ status, output }]. *)
Record TranslationMessage := {
  t_status : string;
  t_output : string
}.

(** The request [generateTranslation] posts. *)
Record TranslationRequest := {
  req_text : list string;
  src_lang : string;
  tgt_lang : string
}.

(** The state hooks of [Information]; [translation] and [translating]
    start as [null]. *)
Record InformationState := {
  tab : string;
  translation : option string;
  toLanguage : string;
  translating : option bool;
  info_console : list string
}.

Definition Information_initial : InformationState :=
  {| tab := "transcription"; translation := None;
     toLanguage := "Select language"; translating := None;
     info_console := [] |}.

Definition setTab (v : string) (s : InformationState) : InformationState :=
  {| tab := v; translation := translation s; toLanguage := toLanguage s;
     translating := translating s; info_console := info_console s |}.

Definition setTranslation (v : option string) (s : InformationState)
    : InformationState :=
  {| tab := tab s; translation := v; toLanguage := toLanguage s;
     translating := translating s; info_console := info_console s |}.

Definition setToLanguage (v : string) (s : InformationState)
    : InformationState :=
  {| tab := tab s; translation := translation s; toLanguage := v;
     translating := translating s; info_console := info_console s |}.

Definition setTranslating (v : option bool) (s : InformationState)
    : InformationState :=
  {| tab := tab s; translation := translation s; toLanguage := toLanguage s;
     translating := v; info_console := info_console s |}.

Definition info_log (e : string) (s : InformationState) : InformationState :=
  {| tab := tab s; translation := translation s; toLanguage := toLanguage s;
     translating := translating s; info_console := info_console s ++ [e] |}.

(** [translating] as a condition: [null] and [false] are falsy. *)
Definition is_translating (s : InformationState) : bool :=
  match translating s with
  | Some b => b
  | None => false
  end.

(** The [switch (e.data.status)] of the component's message handler. *)
Definition Information_onMessageReceived (m : TranslationMessage)
    (s : InformationState) : InformationState :=
  if String.eqb (t_status m) "initiate" then info_log "DOWNLOADING" s
  else if String.eqb (t_status m) "progress" then info_log "LOADING" s
  else if String.eqb (t_status m) "update" then
    info_log (t_output m) (setTranslation (Some (t_output m)) s)
  else if String.eqb (t_status m) "complete" then
    info_log "DONE" (setTranslating (Some false) s)
  else s.

(** [textElement]: the texts of the segments, or the translation. *)
Inductive TextElement :=
| Texts (texts : list string)
| Text (text : string).

Definition textElement (output : list ProcessedChunk) (s : InformationState)
    : TextElement :=
  if String.eqb (tab s) "transcription" then Texts (map p_text output)
  else
    match translation s with
    | Some t => Text t
    | None => Text ""
    end.

Definition generateTranslation (output : list ProcessedChunk)
    (s : InformationState) : InformationState * option TranslationRequest :=
  if is_translating s || String.eqb (toLanguage s) "Select language" then
    (s, None)
  else
    (setTranslating (Some true) s,
     Some {| req_text := map p_text output;
             src_lang := "eng_Latn";
             tgt_lang := toLanguage s |}).

(** The spinner of the result screen: [!finished || translating]. *)
Definition shows_spinner (finished : bool) (s : InformationState) : bool :=
  negb finished || is_translating s.

(** What can happen to the component: a click on Translate, a choice in the
    language list, a click on a tab, a message of the translation worker. *)
Inductive InformationEvent :=
| ClickTranslate
| SelectLanguage (value : string)
| SelectTab (value : string)
| WorkerMessage (m : TranslationMessage).

Definition Information_step (output : list ProcessedChunk)
    (s : InformationState) (ev : InformationEvent)
    : InformationState * option TranslationRequest :=
  match ev with
  | ClickTranslate => generateTranslation output s
  | SelectLanguage v => (setToLanguage v s, None)
  | SelectTab v => (setTab v s, None)
  | WorkerMessage m => (Information_onMessageReceived m s, None)
  end.

(** A run of events, each with the [output] prop of its render; the
    requests posted, in order. *)
Fixpoint Information_run (s : InformationState)
    (evs : list (list ProcessedChunk * InformationEvent))
    : InformationState * list TranslationRequest :=
  match evs with
  | [] => (s, [])
  | (output, ev) :: evs' =>
      let '(s', req) := Information_step output s ev in
      let '(s'', reqs) := Information_run s' evs' in
      (s'', match req with Some r => r :: reqs | None => reqs end)
  end.

Definition is_complete (ev : list ProcessedChunk * InformationEvent) : bool :=
  match snd ev with
  | WorkerMessage m => String.eqb (t_status m) "complete"
  | _ => false
  end.

(** ** Scenarios of the page *)
Module PageScenario.

Definition value (t : MessageTypes) : string :=
  match t with
  | DOWNLOADING => "DOWNLOADING"
  | LOADING => "LOADING"
  | RESULT => "RESULT"
  | RESULT_PARTIAL => "RESULT_PARTIAL"
  | INFERENCE_REQUEST => "INFERENCE_REQUEST"
  | INFERENCE_DONE => "INFERENCE_DONE"
  end.

(** A page on which a file has been chosen; decoding it gives the audio. *)
Definition with_file : AppState unit :=
  {| file := Some tt; audioStream := None; output := None;
     downloading := false; loading := false; finished := false;
     app_console := [] |}.

Definition decode_audio (f : unit) : unit := f.

(** An engine run with no finalized chunk. *)
Definition silent : list (EngineEvent string RawChunk) * Settled :=
  (Scenario.numbered_updates 3, Resolved).

(** A factory that fails once and then builds the engine. *)
Definition fails_once
    (script : list (EngineEvent string RawChunk) * Settled)
    : nat -> string -> option string -> Load unit string RawChunk :=
  fun n t m =>
    match n with
    | O => Scenario.load_fails n t m
    | S _ => Scenario.loads script n t m
    end.

End PageScenario.

(** * Properties *)

Local Arguments Nat.modulo : simpl never.
Local Arguments Nat.div : simpl never.

(** ** Rounding *)

Lemma Math_round_mono (x y : Q) :
  (x <= y)%Q -> (Math_round x <= Math_round y)%Z.
Proof.
  intros Hxy. unfold Math_round. apply Qfloor_resp_le.
  apply Qplus_le_compat; [exact Hxy | apply Qle_refl].
Qed.

Lemma number_or_zero (b : Z) : number_or 0 b = b.
Proof. reflexivity. Qed.

Lemma number_or_nonzero (a b : Z) : a <> 0%Z -> number_or a b = a.
Proof.
  intros Ha. unfold number_or. destruct (Z.eqb_spec a 0); congruence.
Qed.

Lemma imap_index_seq {A B} (f : nat -> A -> B) (g : B -> nat) (l : list A) :
  (forall i a, g (f i a) = i) ->
  forall k, g <$> imap (fun i => f (k + i)%nat) l = seq k (List.length l).
Proof.
  intros Hg. induction l as [|a l IH]; intros k; simpl; [reflexivity|].
  rewrite Hg, Nat.add_0_r. f_equal.
  rewrite <- (IH (S k)). f_equal. apply imap_ext. intros i x _.
  simpl. f_equal. lia.
Qed.

Section TrackerProperties.

Context {Audio Token ChunkData : Type}.

Abbreviation Tracker := (GenerationTracker Audio Token ChunkData).
Abbreviation State := (World Audio Token ChunkData).

Implicit Types (this : Tracker) (w : State).

Lemma post_nil w : post w [] = w.
Proof. destruct w. unfold post. simpl. by rewrite app_nil_r. Qed.

Lemma post_post w ms ms' : post (post w ms) ms' = post w (ms ++ ms').
Proof. unfold post. simpl. by rewrite <- app_assoc. Qed.

Lemma postMessage_post m w : postMessage m w = (Normal tt, post w [m]).
Proof. reflexivity. Qed.

Lemma sendFinalResult_post this w :
  sendFinalResult this w = (Normal tt, post w [MsgInferenceDone]).
Proof. reflexivity. Qed.

Lemma processChunk_index this c i : index (processChunk this c i) = i.
Proof. unfold processChunk. by destruct (timestamp c). Qed.

Lemma processed_indices this (raws : list RawChunk) :
  index <$> imap (fun i c => processChunk this c i) raws
    = seq 0 (List.length raws).
Proof.
  apply (imap_index_seq (fun i c => processChunk this c i) index raws
           (fun i c => processChunk_index this c i) 0).
Qed.

(** What [chunkCallback] does to the tracker and to the world. *)
Lemma chunkCallback_eq this data w :
  let pushed := chunks this ++ [data] in
  let decoded :=
    snd (tokenizer_decode_asr (this_pipeline this) pushed
           (time_precision this)) in
  let this' :=
    {| this_pipeline := this_pipeline this;
       stride_length_s := stride_length_s this;
       chunks := pushed;
       time_precision := time_precision this;
       processed_chunks :=
         imap (fun i c => processChunk this c i) decoded;
       callbackFunctionCounter := callbackFunctionCounter this |} in
  chunkCallback this data w
    = (Normal this',
       post w [MsgResult (processed_chunks this') false
                         (getLastChunkTimestamp this')]).
Proof.
  simpl. unfold chunkCallback.
  destruct (tokenizer_decode_asr _ _ _) as [running decoded]. reflexivity.
Qed.

(** C4. When the raw end of a chunk is absent, the processed end is
    round(start + 0.9 * stride_length_s); for the chunk "partial" starting
    at 1 with no end and a stride of 5 seconds, that is round(5.5) = 6. *)
Theorem processChunk_absent_end :
  (forall this (txt : string) (s : Q) (i : nat),
      end_ (processChunk this {| text := txt; timestamp := (s, None) |} i)
      = Math_round (s + (9 # 10) * stride_length_s this))
  /\ (forall (p : Pipeline Audio Token ChunkData) cs tp pcs n,
        processChunk
          {| this_pipeline := p; stride_length_s := 5; chunks := cs;
             time_precision := tp; processed_chunks := pcs;
             callbackFunctionCounter := n |}
          {| text := "partial"; timestamp := (1, None) |} 0
        = {| index := 0; p_text := "partial"; start := 1; end_ := 6 |})
  /\ Math_round (1 + (9 # 10) * 5) = 6%Z
  /\ Math_round (11 # 2) = 6%Z.
Proof.
  split; [|split; [|split]]; try reflexivity.
Qed.

(** C9. A raw end that is present but rounds to 0 is overridden by the
    stride fallback: the fallback is taken on the falsy rounded value. *)
Theorem processChunk_end_rounding_to_zero this (txt : string) (s e : Q)
    (i : nat) :
  Math_round e = 0%Z ->
  end_ (processChunk this {| text := txt; timestamp := (s, Some e) |} i)
  = Math_round (s + (9 # 10) * stride_length_s this).
Proof.
  intros He. unfold processChunk. simpl. rewrite He. apply number_or_zero.
Qed.

(** C5, as the code has it. With a non-negative stride, a chunk whose raw
    end is absent, or present and not before its start, is processed into
    a segment with end >= start. *)
Theorem processChunk_end_ge_start this (c : RawChunk) (i : nat) :
  (0 <= stride_length_s this)%Q ->
  match snd (timestamp c) with
  | None => True
  | Some e => (fst (timestamp c) <= e)%Q
  end ->
  (start (processChunk this c i) <= end_ (processChunk this c i))%Z.
Proof.
  intros Hstride Hend. unfold processChunk.
  destruct (timestamp c) as [s oe]. simpl in *.
  assert (Hfallback :
    (Math_round s <= Math_round (s + (9 # 10) * stride_length_s this))%Z).
  { apply Math_round_mono.
    rewrite <- (Qplus_0_r s) at 1.
    apply Qplus_le_compat; [apply Qle_refl|].
    apply Qmult_le_0_compat; [discriminate | exact Hstride]. }
  destruct oe as [e|]; simpl.
  - unfold number_or. destruct (Z.eqb_spec (Math_round e) 0).
    + exact Hfallback.
    + by apply Math_round_mono.
  - exact Hfallback.
Qed.

Lemma processChunk_stride this this' c i :
  stride_length_s this' = stride_length_s this ->
  processChunk this' c i = processChunk this c i.
Proof. intros H. unfold processChunk. by rewrite H. Qed.

(** Feeding finalized chunks never throws: each one is accumulated and
    answered by one Result message. *)
Lemma run_chunks this datas w :
  datas <> [] ->
  exists this' ms,
    run_callbacks this (map ChunkFinalized datas) w
      = (Normal this', post w ms)
    /\ chunks this' = chunks this ++ datas
    /\ this_pipeline this' = this_pipeline this
    /\ stride_length_s this' = stride_length_s this
    /\ time_precision this' = time_precision this
    /\ callbackFunctionCounter this' = callbackFunctionCounter this
    /\ processed_chunks this'
       = imap (fun i c => processChunk this c i)
           (snd (tokenizer_decode_asr (this_pipeline this)
                   (chunks this ++ datas) (time_precision this)))
    /\ List.length ms = List.length datas
    /\ Forall (fun m => msg_type m = RESULT) ms
    /\ last ms = Some (MsgResult (processed_chunks this') false
                         (getLastChunkTimestamp this')).
Proof.
  revert this w.
  induction datas as [|x ds IHds]; intros this w Hne; [done|].
  simpl. unfold bind. rewrite chunkCallback_eq.
  set (t1 := {| this_pipeline := this_pipeline this |}).
  set (m1 := MsgResult (processed_chunks t1) false
                       (getLastChunkTimestamp t1)).
  destruct ds as [|y ds].
  - exists t1, [m1]. simpl. repeat split. by repeat constructor.
  - destruct (IHds t1 (post w [m1]))
      as (t2 & ms & Hrun & Hch & Hp & Hs & Htp & Hc & Hpc & Hlen & Hall
          & Hlast); [done|].
    exists t2, (m1 :: ms).
    rewrite Hrun, post_post. simpl in *.
    rewrite <- app_assoc in Hch, Hpc. simpl in *.
    repeat split; try done.
    + by rewrite Hlen.
    + by constructor.
    + destruct ms as [|m ms]; [discriminate|]. exact Hlast.
Qed.

(** C6, as the code has it. The indices of the processed sequence are 0,
    1, ..., N-1 in order: for any N raw chunks mapped through
    [processChunk], and for the sequence a new tracker holds after any run
    of finalized chunks, N being the number of chunks the merge of the
    accumulated list returns (0 before any chunk is fed); that is the
    number of chunks fed only when the merge returns one chunk for each. *)
Theorem processed_chunk_indices_dense :
  (forall this (raws : list RawChunk),
      let segments := imap (fun i c => processChunk this c i) raws in
      List.length segments = List.length raws
      /\ index <$> segments = seq 0 (List.length raws))
  /\ (forall (p : Pipeline Audio Token ChunkData) (stride : Q) datas w,
        exists this' w',
          (this <- new_GenerationTracker (Some p) stride ;;
           run_callbacks this (map ChunkFinalized datas)) w
            = (Normal this', w')
          /\ chunks this' = datas
          /\ index <$> processed_chunks this'
             = seq 0 (List.length (processed_chunks this'))
          /\ List.length (processed_chunks this')
             = match datas with
               | [] => 0%nat
               | _ => List.length
                        (snd (tokenizer_decode_asr p datas
                                (time_precision this')))
               end
          /\ ((forall l tp,
                  List.length (snd (tokenizer_decode_asr p l tp))
                  = List.length l) ->
              index <$> processed_chunks this'
              = seq 0 (List.length datas))).
Proof.
  split.
  - intros this raws segments. subst segments. split.
    + apply length_imap.
    + apply processed_indices.
  - intros p stride datas w. unfold bind. simpl.
    set (this := {| this_pipeline := p |}).
    destruct datas as [|d datas].
    + exists this, w. simpl. repeat split.
    + destruct (run_chunks this (d :: datas) w)
        as (t2 & ms & Hrun & Hch & Hp & Hs & Htp & Hc & Hpc & _); [done|].
      exists t2, (post w ms). split; [exact Hrun|]. split; [exact Hch|].
      rewrite Hpc, Htp, length_imap, processed_indices.
      split; [reflexivity|]. split; [reflexivity|].
      intros Hone. by rewrite Hone.
Qed.

(** C8. [chunkCallback] pushes the chunk, rebuilds the whole processed
    sequence from the merge of the full accumulation list (nothing of the
    previous sequence enters the new one) and posts it in a Result with
    isDone = false. *)
Theorem chunkCallback_rederives_full_sequence this data w :
  let pushed := chunks this ++ [data] in
  let decoded :=
    snd (tokenizer_decode_asr (this_pipeline this) pushed
           (time_precision this)) in
  let segments :=
    imap (fun i c =>
            {| index := i;
               p_text := trim (text c);
               start := Math_round (fst (timestamp c));
               end_ := number_or (Math_round_nullable (snd (timestamp c)))
                         (Math_round (fst (timestamp c)
                                      + (9 # 10) * stride_length_s this)) |})
         decoded in
  exists this',
    chunkCallback this data w
      = (Normal this',
         post w [MsgResult segments false (getLastChunkTimestamp this')])
    /\ chunks this' = pushed
    /\ processed_chunks this' = segments
    /\ List.length segments = List.length decoded
    /\ this_pipeline this' = this_pipeline this
    /\ stride_length_s this' = stride_length_s this
    /\ time_precision this' = time_precision this
    /\ callbackFunctionCounter this' = callbackFunctionCounter this.
Proof.
  intros pushed decoded segments.
  assert (Hseg : imap (fun i c => processChunk this c i) decoded = segments).
  { apply imap_ext. intros i c _. unfold processChunk.
    by destruct (timestamp c). }
  eexists. rewrite chunkCallback_eq. fold pushed. fold decoded.
  rewrite Hseg. simpl. repeat split. apply length_imap.
Qed.

(** What [callbackFunction] does when the engine passes at least one
    beam. *)
Lemma callbackFunction_eq this (b : Beam) (bs : list Beam) w :
  let this' :=
    {| this_pipeline := this_pipeline this;
       stride_length_s := stride_length_s this;
       chunks := chunks this;
       time_precision := time_precision this;
       processed_chunks := processed_chunks this;
       callbackFunctionCounter := callbackFunctionCounter this + 1 |} in
  callbackFunction this (b :: bs) w
    = (Normal this',
       post w
         (if (callbackFunctionCounter this' mod 10 =? 0)%nat then
            [MsgResultPartial
               {| r_text := tokenizer_decode (this_pipeline this)
                              (output_token_ids b);
                  r_start := getLastChunkTimestamp this;
                  r_end := JsUndefined |}]
          else [])).
Proof.
  cbv zeta. unfold callbackFunction. cbn [callbackFunctionCounter].
  destruct ((callbackFunctionCounter this + 1) mod 10 =? 0)%nat;
    cbn [negb].
  - reflexivity.
  - unfold ret. by rewrite post_nil.
Qed.

Lemma tenth_update_count (c : nat) :
  (if ((c + 1) mod 10 =? 0)%nat then 1 else 0)%nat
  = ((c + 1) / 10 - c / 10)%nat.
Proof.
  destruct (Nat.eqb_spec ((c + 1) mod 10) 0) as [H|H];
    pose proof (Nat.div_mod_eq (c + 1) 10);
    pose proof (Nat.div_mod_eq c 10);
    pose proof (Nat.mod_upper_bound (c + 1) 10);
    pose proof (Nat.mod_upper_bound c 10); lia.
Qed.

(** A run of beam updates: the counter advances by one per update and the
    partial results posted are as many as there are multiples of 10 among
    the counter values passed. *)
Lemma run_beam_updates this (updates : list (Beam * list Beam)) w :
  exists this' ms,
    run_callbacks this
      (map (fun u => BeamUpdate (fst u :: snd u)) updates) w
      = (Normal this', post w ms)
    /\ callbackFunctionCounter this'
       = (callbackFunctionCounter this + List.length updates)%nat
    /\ processed_chunks this' = processed_chunks this
    /\ Forall (fun m => msg_type m = RESULT_PARTIAL) ms
    /\ List.length ms
       = ((callbackFunctionCounter this + List.length updates) / 10
          - callbackFunctionCounter this / 10)%nat.
Proof.
  revert this w. induction updates as [|[b bs] us IH]; intros this w.
  - exists this, []. simpl. rewrite post_nil, Nat.add_0_r, Nat.sub_diag.
    repeat split. constructor.
  - simpl. unfold bind. rewrite callbackFunction_eq.
    set (t1 := {| this_pipeline := this_pipeline this |}).
    set (m1 := if (_ =? 0)%nat then _ else _).
    destruct (IH t1 (post w m1)) as (t2 & ms & Hrun & Hc & Hp & Hall & Hlen).
    exists t2, (m1 ++ ms). rewrite Hrun, post_post.
    simpl in Hc, Hp, Hlen.
    repeat split; try done.
    + rewrite Hc. lia.
    + apply Forall_app. split; [|exact Hall].
      subst m1. destruct (_ =? 0)%nat; by repeat constructor.
    + rewrite length_app, Hlen.
      assert (Hm1 : List.length m1 =
                    ((callbackFunctionCounter this + 1) / 10
                     - callbackFunctionCounter this / 10)%nat).
      { rewrite <- tenth_update_count. subst m1. simpl.
        by destruct (_ =? 0)%nat. }
      rewrite Hm1.
      replace (callbackFunctionCounter this + S (List.length us))%nat
        with (callbackFunctionCounter this + 1 + List.length us)%nat by lia.
      pose proof (Nat.Div0.div_le_mono (callbackFunctionCounter this)
                    (callbackFunctionCounter this + 1) 10 ltac:(lia)).
      pose proof (Nat.Div0.div_le_mono (callbackFunctionCounter this + 1)
                    (callbackFunctionCounter this + 1 + List.length us) 10
                    ltac:(lia)).
      lia.
Qed.

(** Whatever the engine fires, the callbacks post only Result and
    PartialResult messages. *)
Lemma run_callbacks_posts this (evs : list (EngineEvent Token ChunkData)) w :
  exists c ms,
    run_callbacks this evs w = (c, post w ms)
    /\ Forall (fun m => msg_type m = RESULT \/ msg_type m = RESULT_PARTIAL)
              ms.
Proof.
  revert this w. induction evs as [|ev evs IH]; intros this w.
  - exists (Normal this), []. simpl. unfold ret. by rewrite post_nil.
  - simpl. unfold bind. destruct ev as [beams|data]; simpl.
    + destruct beams as [|b bs].
      * unfold callbackFunction. cbv zeta. simpl callbackFunctionCounter.
        destruct (_ =? 0)%nat; simpl.
        -- eexists _, []. rewrite post_nil. by split.
        -- destruct (IH {| this_pipeline := this_pipeline this;
                          stride_length_s := stride_length_s this;
                          chunks := chunks this;
                          time_precision := time_precision this;
                          processed_chunks := processed_chunks this;
                          callbackFunctionCounter :=
                            callbackFunctionCounter this + 1 |} w)
             as (c & ms & Hrun & Hall).
           exists c, ms. by split.
      * rewrite callbackFunction_eq.
        set (m1 := if (_ =? 0)%nat then _ else _).
        destruct (IH {| this_pipeline := this_pipeline this;
                        stride_length_s := stride_length_s this;
                        chunks := chunks this;
                        time_precision := time_precision this;
                        processed_chunks := processed_chunks this;
                        callbackFunctionCounter :=
                          callbackFunctionCounter this + 1 |} (post w m1))
          as (c & ms & Hrun & Hall).
        exists c, (m1 ++ ms). rewrite Hrun, post_post. split; [done|].
        apply Forall_app. split; [|exact Hall].
        subst m1.
        destruct (_ =? 0)%nat; [constructor; [by right|]|]; constructor.
    + rewrite chunkCallback_eq.
      set (t1 := {| this_pipeline := this_pipeline this |}).
      set (m1 := MsgResult _ _ _).
      destruct (IH t1 (post w [m1])) as (c & ms & Hrun & Hall).
      exists c, (m1 :: ms). rewrite Hrun, post_post. split; [done|].
      constructor; [by left | exact Hall].
Qed.

Lemma getLastChunkTimestamp_processed this this' :
  processed_chunks this' = processed_chunks this ->
  getLastChunkTimestamp this' = getLastChunkTimestamp this.
Proof. intros H. unfold getLastChunkTimestamp. by rewrite H. Qed.

(** Any run of callbacks with a beam in every update: no exception, every
    finalized chunk accumulated and answered by one Result, the last Result
    carrying the merge of all accumulated chunks, processed. *)
Lemma run_events this (evs : list (EngineEvent Token ChunkData)) w :
  Forall (fun ev => has_beam ev = true) evs ->
  exists this' ms,
    run_callbacks this evs w = (Normal this', post w ms)
    /\ chunks this' = chunks this ++ finalized evs
    /\ this_pipeline this' = this_pipeline this
    /\ stride_length_s this' = stride_length_s this
    /\ time_precision this' = time_precision this
    /\ Forall (fun m => msg_type m = RESULT \/ msg_type m = RESULT_PARTIAL) ms
    /\ List.length (List.filter is_result ms) = List.length (finalized evs)
    /\ match finalized evs with
       | [] => processed_chunks this' = processed_chunks this
       | _ =>
           processed_chunks this'
           = imap (fun i c => processChunk this c i)
               (snd (tokenizer_decode_asr (this_pipeline this)
                       (chunks this ++ finalized evs) (time_precision this)))
           /\ last (List.filter is_result ms)
              = Some (MsgResult (processed_chunks this') false
                                (getLastChunkTimestamp this'))
       end.
Proof.
  intros Hbeams. revert this w.
  induction Hbeams as [|ev evs Hev _ IH]; intros this w.
  - exists this, []. simpl. unfold ret.
    rewrite post_nil, app_nil_r. repeat split. constructor.
  - simpl run_callbacks. unfold bind. destruct ev as [[|b bs]|d].
    + discriminate.
    + simpl on_event. rewrite callbackFunction_eq.
      set (t1 := {| this_pipeline := this_pipeline this |}).
      set (m1 := if (_ =? 0)%nat then _ else _).
      destruct (IH t1 (post w m1))
        as (t2 & ms & Hrun & Hch & Hp & Hs & Htp & Hall & Hlen & Hlast).
      exists t2, (m1 ++ ms). rewrite Hrun, post_post.
      assert (Hm1 : List.filter is_result m1 = []).
      { subst m1. by destruct (_ =? 0)%nat. }
      assert (Hm1' : Forall (fun m => msg_type m = RESULT
                                      \/ msg_type m = RESULT_PARTIAL) m1).
      { subst m1.
        destruct (_ =? 0)%nat; [constructor; [by right|]|]; constructor. }
      rewrite List.filter_app, Hm1. simpl in *.
      repeat split; try done. by apply Forall_app.
    + simpl on_event. rewrite chunkCallback_eq.
      set (t1 := {| this_pipeline := this_pipeline this |}).
      set (m1 := MsgResult _ _ _).
      destruct (IH t1 (post w [m1]))
        as (t2 & ms & Hrun & Hch & Hp & Hs & Htp & Hall & Hlen & Hlast).
      exists t2, (m1 :: ms). rewrite Hrun, post_post.
      simpl in Hch, Hp, Hs, Htp. rewrite <- app_assoc in Hch. simpl in Hch.
      split; [done|]. split; [done|]. split; [done|]. split; [done|].
      split; [done|]. split; [constructor; [by left | done]|].
      simpl. split; [by rewrite Hlen|].
      destruct (finalized evs) as [|d' ds] eqn:Hfin.
      * destruct (List.filter is_result ms); [|discriminate].
        rewrite Hlast. split; [done|]. simpl. subst m1. f_equal. f_equal.
        symmetry. by apply getLastChunkTimestamp_processed.
      * destruct Hlast as [Hpc Hl]. simpl in Hpc.
        rewrite <- app_assoc in Hpc. simpl in Hpc. split; [exact Hpc|].
        rewrite last_cons, Hl. reflexivity.
Qed.

End TrackerProperties.

Section OrchestratorProperties.

Context {Audio Token ChunkData : Type}.

Abbreviation Engine := (Pipeline Audio Token ChunkData).
Abbreviation Factory :=
  (nat -> string -> option string -> Load Audio Token ChunkData).

Implicit Types (w : World Audio Token ChunkData) (p : Engine)
  (factory : Factory) (audio : Audio).

Lemma for_each_load_model_callback (ds : list ProgressData) w :
  for_each load_model_callback ds w
    = (Normal tt, post w (downloading_messages ds)).
Proof.
  revert w. induction ds as [|d ds IH]; intros w; simpl.
  - unfold ret. by rewrite post_nil.
  - unfold bind, load_model_callback.
    destruct (String.eqb (pd_status d) "progress"); simpl.
    + rewrite IH. unfold post. simpl. by rewrite <- app_assoc.
    + by rewrite IH.
Qed.

Lemma transcribe_with_instance factory audio w p :
  instance w = Some p ->
  transcribe factory audio w
    = run_request p audio
        (post w [MsgLoading "loading"; MsgLoading "success"]).
Proof.
  intros Hi. destruct w as [i o c n]. simpl in Hi. subst i.
  unfold transcribe, run_request, bind, try_catch, post. simpl.
  by rewrite <- app_assoc.
Qed.

Lemma transcribe_building factory audio w p :
  instance w = None ->
  load_result (factory (pipeline_calls w) task None) = Built p ->
  transcribe factory audio w
    = run_request p audio
        {| instance := Some p;
           outbox := outbox w
                     ++ MsgLoading "loading"
                        :: downloading_messages
                             (progress_events
                                (factory (pipeline_calls w) task None))
                     ++ [MsgLoading "success"];
           console := console w;
           pipeline_calls := S (pipeline_calls w) |}.
Proof.
  intros Hi Hb. destruct w as [i o c n]. simpl in *. subst i.
  unfold transcribe, run_request, bind, try_catch, getInstance, pipeline,
    bind. simpl.
  rewrite for_each_load_model_callback. simpl. rewrite Hb. simpl.
  by rewrite <- !app_assoc.
Qed.

Lemma transcribe_load_failure factory audio w msg :
  instance w = None ->
  load_result (factory (pipeline_calls w) task None) = Failed msg ->
  transcribe factory audio w
    = (Throw (TypeError
                "Cannot read properties of undefined (reading 'model')"),
       {| instance := None;
          outbox := outbox w
                    ++ MsgLoading "loading"
                       :: downloading_messages
                            (progress_events
                               (factory (pipeline_calls w) task None))
                    ++ [MsgLoading "success"];
          console := console w ++ [msg];
          pipeline_calls := S (pipeline_calls w) |}).
Proof.
  intros Hi Hb. destruct w as [i o c n]. simpl in *. subst i.
  unfold transcribe, bind, try_catch, getInstance, pipeline, bind. simpl.
  rewrite for_each_load_model_callback. simpl. rewrite Hb. simpl.
  by rewrite <- !app_assoc.
Qed.


(** The request once the engine is there: the callbacks' messages, then
    Done exactly when neither a callback nor the engine threw. *)
Lemma run_request_spec p audio w :
  exists c ms,
    run_request p audio w = (c, post w ms)
    /\ match snd (call p audio (run_options 5)) with
       | Resolved => True
       | Rejected _ => exists e, c = Throw e
       end
    /\ exists ms0,
         Forall (fun m => msg_type m = RESULT \/ msg_type m = RESULT_PARTIAL)
                ms0
         /\ (ms = ms0 \/ (c = Normal tt /\ ms = ms0 ++ [MsgInferenceDone]
                          /\ snd (call p audio (run_options 5)) = Resolved))
         /\ (snd (call p audio (run_options 5)) <> Resolved -> ms = ms0).
Proof.
  unfold run_request, bind, call_pipeline. simpl.
  destruct (call p audio (run_options 5)) as [events settled]. simpl.
  unfold bind.
  destruct (run_callbacks_posts
              {| this_pipeline := p; stride_length_s := 5; chunks := [];
                 time_precision :=
                   number_div (config_chunk_length p)
                              (config_max_source_positions p);
                 processed_chunks := []; callbackFunctionCounter := 0 |}
              events w) as (c0 & ms0 & Hrun & Hall).
  rewrite Hrun. destruct c0 as [t'|e].
  - destruct settled as [|m]; simpl.
    + exists (Normal tt), (ms0 ++ [MsgInferenceDone]).
      unfold sendFinalResult. rewrite postMessage_post, post_post.
      split; [done|]. split; [done|]. exists ms0. split; [done|].
      split; [by right | done].
    + exists (Throw (Error m)), ms0. split; [done|].
      split; [by eexists|]. exists ms0. split; [done|]. split; [by left|done].
  - exists (Throw e), ms0. split; [done|]. split.
    + destruct settled; [done | by eexists].
    + exists ms0. split; [done|]. split; [by left|done].
Qed.

Lemma pipeline_agree factory factory' cb w :
  (forall n t, factory n t None = factory' n t None) ->
  pipeline factory task None cb w = pipeline factory' task None cb w.
Proof. intros H. unfold pipeline, bind. simpl. by rewrite H. Qed.

Lemma transcribe_agree factory factory' audio w :
  (forall n t, factory n t None = factory' n t None) ->
  transcribe factory audio w = transcribe factory' audio w.
Proof.
  intros H. unfold transcribe, bind, try_catch, getInstance. simpl.
  unfold bind. simpl. destruct (instance w); [reflexivity|].
  unfold bind. by rewrite (pipeline_agree factory factory').
Qed.

End OrchestratorProperties.

(** ** The event loop *)

Section EventLoopProperties.

Context {Audio Token ChunkData : Type}.

Implicit Types (w : World Audio Token ChunkData)
  (s : WorkerState Audio Token ChunkData)
  (j : Job Audio Token ChunkData)
  (this : GenerationTracker Audio Token ChunkData)
  (factory : nat -> string -> option string -> Load Audio Token ChunkData)
  (d : EventData Audio) (turns : list Turn).

Lemma after_getInstance_eq (pl : option (Pipeline Audio Token ChunkData))
    (a : Audio) w :
  after_getInstance pl a w
  = (match pl with
     | None =>
         Throw (TypeError
                  "Cannot read properties of undefined (reading 'model')")
     | Some p =>
         Normal
           (AwaitingRun
              {| this_pipeline := p; stride_length_s := 5; chunks := [];
                 time_precision :=
                   number_div (config_chunk_length p)
                              (config_max_source_positions p);
                 processed_chunks := []; callbackFunctionCounter := 0 |}
              (fst (call p a (run_options 5)))
              (snd (call p a (run_options 5))))
     end,
     post w [MsgLoading "success"]).
Proof.
  unfold after_getInstance, bind. simpl. destruct pl as [p|]; simpl.
  - unfold bind. simpl. by destruct (call p a (run_options 5)).
  - reflexivity.
Qed.

Lemma deliver_other factory d w :
  is_request d = false -> deliver factory d w = (Normal None, w).
Proof.
  unfold is_request, deliver. intros H.
  apply bool_decide_eq_false in H. by destruct (decide _).
Qed.

Lemma deliver_instance factory d w (p : Pipeline Audio Token ChunkData) :
  is_request d = true ->
  instance w = Some p ->
  exists this events settled,
    deliver factory d w
    = (Normal (Some (AwaitingRun this events settled)),
       post w [MsgLoading "loading"; MsgLoading "success"]).
Proof.
  unfold is_request, deliver. intros H Hi.
  apply bool_decide_eq_true in H. destruct (decide _); [|done].
  unfold bind. simpl. rewrite Hi. unfold bind.
  rewrite after_getInstance_eq. eexists _, _, _. f_equal.
  unfold post. simpl. by rewrite Hi, <- app_assoc.
Qed.

Lemma deliver_load factory d w :
  is_request d = true ->
  instance w = None ->
  deliver factory d w
  = (Normal
       (Some (AwaitingLoad (audio d)
                (progress_events (factory (pipeline_calls w) task None))
                (load_result (factory (pipeline_calls w) task None)))),
     {| instance := None;
        outbox := outbox w ++ [MsgLoading "loading"];
        console := console w;
        pipeline_calls := S (pipeline_calls w) |}).
Proof.
  unfold is_request, deliver. intros H Hi.
  apply bool_decide_eq_true in H. destruct (decide _); [|done].
  unfold bind. simpl. by rewrite Hi.
Qed.

Lemma on_event_posts this (ev : EngineEvent Token ChunkData) w :
  exists c ms,
    on_event this ev w = (c, post w ms)
    /\ Forall (fun m => msg_type m = RESULT \/ msg_type m = RESULT_PARTIAL)
              ms.
Proof.
  destruct ev as [[|b bs]|data]; simpl.
  - unfold callbackFunction. cbv zeta. cbn [callbackFunctionCounter].
    destruct (_ =? 0)%nat; cbn [negb]; eexists _, [];
      rewrite post_nil; by split.
  - rewrite callbackFunction_eq. eexists _, _. split; [reflexivity|].
    destruct (_ =? 0)%nat; [constructor; [by right|]|]; constructor.
  - rewrite chunkCallback_eq. eexists _, _. split; [reflexivity|].
    constructor; [by left | constructor].
Qed.

(** A turn of a handler that waits for the engine's run. *)
Lemma resume_run this (events : list (EngineEvent Token ChunkData))
    (settled : Settled) w :
  exists c ms,
    resume (AwaitingRun this events settled) w = (c, post w ms)
    /\ Forall (fun m => msg_type m = RESULT \/ msg_type m = RESULT_PARTIAL
                        \/ msg_type m = INFERENCE_DONE) ms
    /\ Forall (fun j => awaits_run j = true) (suspended c).
Proof.
  destruct events as [|ev events]; simpl.
  - destruct settled as [|m].
    + unfold bind. rewrite sendFinalResult_post. eexists _, _.
      split; [reflexivity|]. split; [|constructor].
      constructor; [by right; right | constructor].
    + eexists _, []. rewrite post_nil. split; [reflexivity|].
      split; constructor.
  - unfold bind. destruct (on_event_posts this ev w) as (c & ms & -> & Hall).
    destruct c as [this'|e]; eexists _, ms; (split; [reflexivity|]); split.
    + eapply Forall_impl; [exact Hall|]. intros m [H|H]; auto.
    + by repeat constructor.
    + eapply Forall_impl; [exact Hall|]. intros m [H|H]; auto.
    + constructor.
Qed.

(** A turn of any suspended handler: messages and console lines are added
    at the end and the factory is not called. *)
Lemma resume_grows j w :
  exists c w',
    resume j w = (c, w')
    /\ (exists ms, outbox w' = outbox w ++ ms)
    /\ (exists logs, console w' = console w ++ logs)
    /\ pipeline_calls w' = pipeline_calls w.
Proof.
  destruct j as [a progress result | this events settled].
  - destruct progress as [|data progress].
    + destruct result as [p|m];
        unfold resume, bind, set_instance, console_log, modify;
        rewrite after_getInstance_eq; eexists _, _;
        (split; [reflexivity|]); simpl.
      * split; [by eexists|]. split; [|done]. exists []. by rewrite app_nil_r.
      * split; [by eexists|]. split; [|done]. by eexists.
    + simpl. unfold bind, load_model_callback.
      destruct (String.eqb _ _); simpl; eexists _, _;
        (split; [reflexivity|]); simpl.
      * split; [by eexists|]. split; [|done]. exists []. by rewrite app_nil_r.
      * split; [|split; [|done]]; exists []; by rewrite app_nil_r.
  - destruct (resume_run this events settled w) as (c & ms & -> & _).
    eexists _, _. split; [reflexivity|]. simpl.
    split; [by eexists|]. split; [|done]. exists []. by rewrite app_nil_r.
Qed.

(** Neither the handler nor its continuations read [model_name], and the
    factory is only asked for the null model. *)
Lemma turn_agree factory factory' s s' (t : Turn) :
  (forall n k, factory n k None = factory' n k None) ->
  world s = world s' -> jobs s = jobs s' ->
  Forall2 (fun d d' => type d = type d' /\ audio d = audio d')
          (inbox s) (inbox s') ->
  world (turn factory s t) = world (turn factory' s' t)
  /\ jobs (turn factory s t) = jobs (turn factory' s' t)
  /\ Forall2 (fun d d' => type d = type d' /\ audio d = audio d')
             (inbox (turn factory s t)) (inbox (turn factory' s' t)).
Proof.
  intros Hf Hw Hj Hq. destruct t as [|i]; simpl.
  - destruct (inbox s) as [|d q] eqn:Es, (inbox s') as [|d' q'] eqn:Es';
      [by rewrite Es, Es' | inversion Hq | inversion Hq |].
    inversion Hq as [|? ? ? ? [Ht Ha] Hq']; subst.
    assert (Hd : deliver factory d (world s) = deliver factory' d' (world s')).
    { unfold deliver. rewrite Ht, Ha, Hw. destruct (decide _); [|done].
      unfold bind. simpl. destruct (instance (world s')); [done|].
      by rewrite Hf. }
    rewrite Hd. destruct (deliver factory' d' (world s')) as [c w1].
    simpl. by rewrite Hj.
  - rewrite Hj. destruct (jobs s' !! i) as [j|]; [|done].
    rewrite Hw. destruct (resume j (world s')) as [c w1]. by simpl.
Qed.

Lemma event_loop_agree factory factory' turns s s' :
  (forall n k, factory n k None = factory' n k None) ->
  world s = world s' -> jobs s = jobs s' ->
  Forall2 (fun d d' => type d = type d' /\ audio d = audio d')
          (inbox s) (inbox s') ->
  world (event_loop factory turns s) = world (event_loop factory' turns s')
  /\ jobs (event_loop factory turns s) = jobs (event_loop factory' turns s')
  /\ Forall2 (fun d d' => type d = type d' /\ audio d = audio d')
             (inbox (event_loop factory turns s))
             (inbox (event_loop factory' turns s')).
Proof.
  intros Hf. revert s s'. unfold event_loop.
  induction turns as [|t turns IH]; intros s s' Hw Hj Hq; [done|].
  simpl. destruct (turn_agree factory factory' s s' t Hf Hw Hj Hq)
    as (H1 & H2 & H3).
  by apply IH.
Qed.



(** Every turn adds at the end of the outbox and of the console, and calls
    the factory at most once, when it delivers an INFERENCE_REQUEST. *)
Lemma turn_grows factory s (t : Turn) :
  (exists ms, outbox (world (turn factory s t)) = outbox (world s) ++ ms)
  /\ (exists logs,
         console (world (turn factory s t)) = console (world s) ++ logs)
  /\ (pipeline_calls (world s) <= pipeline_calls (world (turn factory s t)))%nat
  /\ (pipeline_calls (world (turn factory s t))
      + List.length (List.filter is_request (inbox (turn factory s t)))
      <= pipeline_calls (world s)
         + List.length (List.filter is_request (inbox s)))%nat.
Proof.
  assert (Hsame : forall w,
             (exists ms, outbox w = outbox w ++ ms)
             /\ (exists logs, console w = console w ++ logs)).
  { intros w. split; exists []; by rewrite app_nil_r. }
  destruct t as [|i]; simpl.
  - destruct (inbox s) as [|d q] eqn:Es.
    + rewrite Es. destruct (Hsame (world s)) as [H1 H2].
      split; [done|]. split; [done|]. simpl. lia.
    + simpl. destruct (is_request d) eqn:Hd.
      * destruct (instance (world s)) as [p|] eqn:Hi.
        -- destruct (deliver_instance factory d (world s) p Hd Hi)
             as (this & events & settled & ->).
           simpl. split; [by eexists|].
           split; [exists []; by rewrite app_nil_r|]. lia.
        -- rewrite (deliver_load factory d (world s) Hd Hi). simpl.
           split; [by eexists|].
           split; [exists []; by rewrite app_nil_r|]. lia.
      * rewrite (deliver_other factory d (world s) Hd). simpl.
        destruct (Hsame (world s)) as [H1 H2].
        split; [done|]. split; [done|]. lia.
  - destruct (jobs s !! i) as [j|].
    + destruct (resume_grows j (world s)) as (c & w' & -> & H1 & H2 & H3).
      simpl. split; [done|]. split; [done|]. lia.
    + destruct (Hsame (world s)) as [H1 H2].
      split; [done|]. split; [done|]. lia.
Qed.

Lemma event_loop_grows factory turns s :
  (exists ms,
      outbox (world (event_loop factory turns s)) = outbox (world s) ++ ms)
  /\ (exists logs,
         console (world (event_loop factory turns s))
         = console (world s) ++ logs)
  /\ (pipeline_calls (world s)
      <= pipeline_calls (world (event_loop factory turns s)))%nat
  /\ (pipeline_calls (world (event_loop factory turns s))
      + List.length
          (List.filter is_request (inbox (event_loop factory turns s)))
      <= pipeline_calls (world s)
         + List.length (List.filter is_request (inbox s)))%nat.
Proof.
  revert s. unfold event_loop. induction turns as [|t turns IH]; intros s.
  - simpl. split; [|split; [|split; [|done]]]; try done;
      exists []; by rewrite app_nil_r.
  - simpl. destruct (turn_grows factory s t)
      as ([ms H1] & [logs H2] & H3 & H4).
    destruct (IH (turn factory s t)) as ([ms' I1] & [logs' I2] & I3 & I4).
    split; [|split; [|split]].
    + exists (ms ++ ms'). by rewrite I1, H1, <- app_assoc.
    + exists (logs ++ logs'). by rewrite I2, H2, <- app_assoc.
    + lia.
    + lia.
Qed.

(** Messages of other types can be taken out of the inbox: the turns that
    would have delivered them are dropped. *)
Lemma event_loop_filter factory turns s s' :
  world s = world s' -> jobs s = jobs s' ->
  inbox s' = List.filter is_request (inbox s) ->
  exists turns',
    world (event_loop factory turns s) = world (event_loop factory turns' s')
    /\ jobs (event_loop factory turns s)
       = jobs (event_loop factory turns' s')
    /\ inbox (event_loop factory turns' s')
       = List.filter is_request (inbox (event_loop factory turns s)).
Proof.
  revert s s'. unfold event_loop.
  induction turns as [|t turns IH]; intros s s' Hw Hj Hq.
  - by exists [].
  - simpl. destruct t as [|i].
    + simpl. destruct (inbox s) as [|d q] eqn:Hin.
      * destruct (IH s s' Hw Hj) as (turns' & H).
        { by rewrite Hin. }
        by exists turns'.
      * simpl in Hq. destruct (is_request d) eqn:Hd.
        -- destruct (deliver factory d (world s)) as [c w1] eqn:Hdel.
           destruct (IH {| world := w1; inbox := q;
                           jobs := jobs s ++ suspended c |}
                        {| world := w1; inbox := List.filter is_request q;
                           jobs := jobs s' ++ suspended c |})
             as (turns' & H); [done | by rewrite Hj | done |].
           exists (Deliver :: turns'). simpl. rewrite Hq, <- Hw, Hdel.
           exact H.
        -- rewrite (deliver_other factory d (world s) Hd).
           destruct (IH {| world := world s; inbox := q;
                           jobs := jobs s ++ suspended (Normal None) |} s')
             as (turns' & H); [done | by rewrite <- Hj, app_nil_r | done |].
           by exists turns'.
    + simpl. rewrite Hj. destruct (jobs s' !! i) as [j|] eqn:Hl.
      * rewrite Hw. destruct (resume j (world s')) as [c w1] eqn:Hres.
        destruct (IH {| world := w1; inbox := inbox s;
                        jobs := take i (jobs s') ++ suspended c
                                ++ drop (S i) (jobs s') |}
                     {| world := w1; inbox := inbox s';
                        jobs := take i (jobs s') ++ suspended c
                                ++ drop (S i) (jobs s') |})
          as (turns' & H); [done | done | done |].
        exists (Resume i :: turns'). simpl. rewrite Hl, Hres. exact H.
      * destruct (IH s s' Hw Hj Hq) as (turns' & H).
        by exists turns'.
Qed.

End EventLoopProperties.

(** ** The claims on requests and scenarios *)

(** C1. [getLastChunkTimestamp] yields 0 on an empty processed list and
    otherwise falls off its body: once a segment starting at 3 has been
    finalized, the Result carries [undefined] as completedUntilTimestamp and
    the next PartialResult carries [undefined] as start, not 3. *)
Theorem last_chunk_timestamp_undefined_after_a_chunk :
  let script :=
    (ChunkFinalized (Scenario.chunk " hello world" 3 (Some 5))
       :: Scenario.numbered_updates 10, Resolved) in
  transcribe (Scenario.loads script) tt (Scenario.loaded script)
  = (Normal tt,
     post (Scenario.loaded script)
       [ MsgLoading "loading";
         MsgLoading "success";
         MsgResult
           [ {| index := 0; p_text := "hello world"; start := 3; end_ := 5 |} ]
           false JsUndefined;
         MsgResultPartial
           {| r_text := "J"; r_start := JsUndefined; r_end := JsUndefined |};
         MsgInferenceDone ])
  /\ getLastChunkTimestamp (Scenario.tracker script) = JsNumber 0.
Proof. split; vm_compute; reflexivity. Qed.

(** C7. With at least one beam per update, [callbackFunction] posts one
    PartialResult exactly when the counter it has just incremented is a
    multiple of 10, and nothing otherwise; a run of updates therefore posts
    as many as there are multiples of 10 among the counter values passed,
    and 25 updates of a new tracker post exactly two, at the 10th and the
    20th. *)
Theorem partial_result_every_tenth_update :
  (forall Audio Token ChunkData
          (this : GenerationTracker Audio Token ChunkData)
          (b : Beam) (bs : list Beam) (w : World Audio Token ChunkData),
      exists this',
        callbackFunction this (b :: bs) w
          = (Normal this',
             post w
               (if (callbackFunctionCounter this' mod 10 =? 0)%nat then
                  [MsgResultPartial
                     {| r_text := tokenizer_decode (this_pipeline this)
                                    (output_token_ids b);
                        r_start := getLastChunkTimestamp this;
                        r_end := JsUndefined |}]
                else []))
        /\ callbackFunctionCounter this'
           = (callbackFunctionCounter this + 1)%nat)
  /\ (forall Audio Token ChunkData
             (this : GenerationTracker Audio Token ChunkData)
             (updates : list (Beam * list Beam))
             (w : World Audio Token ChunkData),
         exists this' ms,
           run_callbacks this
             (map (fun u => BeamUpdate (fst u :: snd u)) updates) w
             = (Normal this', post w ms)
           /\ callbackFunctionCounter this'
              = (callbackFunctionCounter this + List.length updates)%nat
           /\ Forall (fun m => msg_type m = RESULT_PARTIAL) ms
           /\ List.length ms
              = ((callbackFunctionCounter this + List.length updates) / 10
                 - callbackFunctionCounter this / 10)%nat)
  /\ (forall script,
         exists this',
           run_callbacks (Scenario.tracker script)
             (Scenario.numbered_updates 25) Scenario.fresh
           = (Normal this',
              post Scenario.fresh
                [ MsgResultPartial
                    {| r_text := "J"; r_start := JsNumber 0;
                       r_end := JsUndefined |};
                  MsgResultPartial
                    {| r_text := "T"; r_start := JsNumber 0;
                       r_end := JsUndefined |} ])
           /\ callbackFunctionCounter this' = 25%nat).
Proof.
  split; [|split].
  - intros. eexists. rewrite callbackFunction_eq. split; reflexivity.
  - intros. destruct (run_beam_updates this updates w)
      as (t & ms & H1 & H2 & _ & H3 & H4).
    by exists t, ms.
  - intros script.
    destruct (run_callbacks (Scenario.tracker script)
                (Scenario.numbered_updates 25) Scenario.fresh)
      as [c w'] eqn:Hrun.
    vm_compute in Hrun. injection Hrun as <- <-.
    eexists. split; reflexivity.
Qed.


(** C3, as the code has it. When the engine cannot be built or its call is
    rejected, [transcribe] ends by an uncaught exception: the messages it
    has posted are Loading, Downloading, Result and PartialResult messages
    only (no Done, and the protocol has no error message), and the factory
    has been called once if there was no instance and not at all
    otherwise. *)
Theorem failed_request_throws_without_terminal_event {Audio Token ChunkData}
    (factory : nat -> string -> option string -> Load Audio Token ChunkData)
    (w : World Audio Token ChunkData) (audio : Audio) :
  request_fails factory w audio ->
  exists e w' ms,
    transcribe factory audio w = (Throw e, w')
    /\ outbox w' = outbox w ++ ms
    /\ Forall (fun m => In (msg_type m) [LOADING; DOWNLOADING; RESULT;
                                        RESULT_PARTIAL]) ms
    /\ pipeline_calls w'
       = (pipeline_calls w
          + match instance w with Some _ => 0 | None => 1 end)%nat
    /\ (engine_of factory w = None -> instance w' = None).
Proof.
  unfold request_fails, engine_of. intros Hfail.
  assert (Hkinds : forall ms0,
    Forall (fun m => msg_type m = RESULT \/ msg_type m = RESULT_PARTIAL) ms0 ->
    Forall (fun m => In (msg_type m) [LOADING; DOWNLOADING; RESULT;
                                     RESULT_PARTIAL]) ms0).
  { intros ms0 H. eapply Forall_impl; [exact H|].
    intros m [-> | ->]; (simpl; tauto). }
  assert (Hdown : forall ds,
    Forall (fun m => In (msg_type m) [LOADING; DOWNLOADING; RESULT;
                                     RESULT_PARTIAL])
           (downloading_messages ds)).
  { induction ds as [|d ds IH]; simpl; [constructor|].
    destruct (String.eqb _ _); simpl; [constructor|]; [(simpl; tauto)|done..]. }
  destruct (instance w) as [p|] eqn:Hi.
  - destruct Hfail as [m Hm].
    rewrite (transcribe_with_instance factory audio w p Hi).
    destruct (run_request_spec p audio
                (post w [MsgLoading "loading"; MsgLoading "success"]))
      as (c & ms & Hrun & Hc & ms0 & Hall & _ & Hms).
    rewrite Hm in Hc, Hms. destruct Hc as [e ->].
    rewrite (Hms ltac:(done)) in Hrun.
    exists e, (post (post w [MsgLoading "loading"; MsgLoading "success"]) ms0),
      ([MsgLoading "loading"; MsgLoading "success"] ++ ms0).
    split; [done|]. rewrite post_post. simpl. split; [done|].
    split; [|split; [lia | done]].
    repeat (constructor; [(simpl; tauto)|]). exact (Hkinds _ Hall).
  - destruct (load_result (factory (pipeline_calls w) task None))
      as [p|msg] eqn:Hload.
    + destruct Hfail as [m Hm].
      rewrite (transcribe_building factory audio w p Hi Hload).
      set (w1 := {| instance := Some p |}).
      destruct (run_request_spec p audio w1)
        as (c & ms & Hrun & Hc & ms0 & Hall & _ & Hms).
      rewrite Hm in Hc, Hms. destruct Hc as [e ->].
      rewrite (Hms ltac:(done)) in Hrun.
      exists e, (post w1 ms0). eexists. split; [exact Hrun|].
      simpl. rewrite <- app_assoc. split; [reflexivity|].
      split; [|split; [lia | done]].
      constructor; [(simpl; tauto)|].
      apply Forall_app. split; [|exact (Hkinds _ Hall)].
      apply Forall_app. split; [exact (Hdown _)|].
      constructor; [(simpl; tauto)|constructor].
    + rewrite (transcribe_load_failure factory audio w msg Hi Hload).
      eexists _, _, _. split; [reflexivity|]. simpl.
      split; [reflexivity|]. split; [|split; [lia | done]].
      constructor; [(simpl; tauto)|].
      apply Forall_app. split; [exact (Hdown _)|].
      constructor; [(simpl; tauto)|constructor].
Qed.

(** C10. What the worker does with an inbound message depends on its type
    and audio only: two queues of messages that agree on these (whatever
    their model_name) leave the same world behind, and so do two factories
    that agree on the null model identifier, the only one [getInstance]
    passes. This holds message by message, for handlers run one after the
    other, and for the event loop over any order of turns, where handlers
    are suspended and resumed between each other. *)
Theorem model_name_is_ignored {Audio Token ChunkData}
    (factory factory' :
       nat -> string -> option string -> Load Audio Token ChunkData)
    (queue queue' : list (EventData Audio))
    (w : World Audio Token ChunkData) :
  (forall n t, factory n t None = factory' n t None) ->
  Forall2 (fun d d' => type d = type d' /\ audio d = audio d') queue queue' ->
  fold_left (dispatch factory) queue w
  = fold_left (dispatch factory') queue' w
  /\ Forall2 (fun d d' => forall w0, onmessage factory d w0
                                     = onmessage factory' d' w0)
             queue queue'
  /\ (forall (turns : list Turn) (pending : list (Job Audio Token ChunkData)),
         let s :=
           event_loop factory turns
             {| world := w; inbox := queue; jobs := pending |} in
         let s' :=
           event_loop factory' turns
             {| world := w; inbox := queue'; jobs := pending |} in
         world s = world s' /\ jobs s = jobs s'
         /\ Forall2 (fun d d' => type d = type d' /\ audio d = audio d')
                    (inbox s) (inbox s')).
Proof.
  intros Hf Hq.
  assert (Hone : forall d d' w0,
             type d = type d' -> audio d = audio d' ->
             onmessage factory d w0 = onmessage factory' d' w0).
  { intros d d' w0 Ht Ha. unfold onmessage. rewrite Ht, Ha.
    destruct (decide _); [|reflexivity]. by apply transcribe_agree. }
  split; [|split].
  - revert w. induction Hq as [|d d' q q' [Ht Ha] _ IH]; intros w.
    + reflexivity.
    + simpl. unfold dispatch at 2 4.
      rewrite (Hone d d' w Ht Ha). apply IH.
  - eapply Forall2_impl; [exact Hq|]. intros d d' [Ht Ha] w0. by apply Hone.
  - intros turns pending. cbv zeta.
    by apply event_loop_agree.
Qed.

(** ** Concrete runs *)



(** Two failing runs. When the factory fails, the worker still posts both
    Loading messages and the request dies on the tracker's constructor;
    when the engine's call is rejected, the request dies after the Result
    of the chunk finalized so far. Neither run posts anything that tells
    the host of the failure. *)
Lemma failed_requests_post_no_error :
  transcribe Scenario.load_fails tt Scenario.fresh
  = (Throw (TypeError "Cannot read properties of undefined (reading 'model')"),
     {| instance := None;
        outbox := [MsgLoading "loading"; MsgLoading "success"];
        console := ["Failed to fetch"];
        pipeline_calls := 1 |})
  /\ transcribe (Scenario.loads Scenario.rejected_run) tt
       (Scenario.loaded Scenario.rejected_run)
     = (Throw (Error "out of memory"),
        post (Scenario.loaded Scenario.rejected_run)
          [ MsgLoading "loading";
            MsgLoading "success";
            MsgResult
              [ {| index := 0; p_text := "one"; start := 0; end_ := 2 |} ]
              false JsUndefined ]).
Proof. split; vm_compute; reflexivity. Qed.

Lemma failed_request_throws_without_terminal_event_witness :
  request_fails Scenario.load_fails Scenario.fresh tt
  /\ exists e w' ms,
       transcribe Scenario.load_fails tt Scenario.fresh = (Throw e, w')
       /\ outbox w' = outbox Scenario.fresh ++ ms
       /\ Forall (fun m => In (msg_type m) [LOADING; DOWNLOADING; RESULT;
                                            RESULT_PARTIAL]) ms
       /\ pipeline_calls w' = 1%nat
       /\ (engine_of Scenario.load_fails Scenario.fresh = None ->
           instance w' = None).
Proof.
  split; [exact I|].
  exact (failed_request_throws_without_terminal_event
           Scenario.load_fails Scenario.fresh tt I).
Defined.

(** A chunk that ends before it starts. The raw chunk from 5 to 2 is
    processed into a segment with start 5 and end 2. *)
Lemma processChunk_end_before_start :
  let segment :=
    processChunk (Scenario.tracker Scenario.malformed_second)
      (Scenario.chunk "x" 5 (Some 2)) 0 in
  segment = {| index := 0; p_text := "x"; start := 5; end_ := 2 |}
  /\ (end_ segment < start segment)%Z.
Proof. split; vm_compute; reflexivity. Qed.

Lemma processChunk_end_ge_start_witness :
  (start (processChunk (Scenario.tracker Scenario.malformed_second)
            (Scenario.chunk "x" 2 (Some (7 # 2))) 0)
   <= end_ (processChunk (Scenario.tracker Scenario.malformed_second)
              (Scenario.chunk "x" 2 (Some (7 # 2))) 0))%Z.
Proof.
  apply (processChunk_end_ge_start
           (Scenario.tracker Scenario.malformed_second)
           (Scenario.chunk "x" 2 (Some (7 # 2))) 0).
  - vm_compute. discriminate.
  - vm_compute. discriminate.
Defined.

Lemma processChunk_end_rounding_to_zero_witness :
  Math_round (2 # 5) = 0%Z
  /\ end_ (processChunk (Scenario.tracker Scenario.malformed_second)
             (Scenario.chunk "x" 0 (Some (2 # 5))) 0)
     = Math_round (0 + (9 # 10) * 5).
Proof.
  split; [reflexivity|].
  apply (processChunk_end_rounding_to_zero
           (Scenario.tracker Scenario.malformed_second) "x" 0 (2 # 5) 0).
  reflexivity.
Defined.

Lemma model_name_is_ignored_witness :
  fold_left (dispatch (Scenario.loads Scenario.malformed_second))
    [Scenario.request "openai/whisper-tiny.en"] Scenario.fresh
  = fold_left (dispatch (Scenario.loads_null_only Scenario.malformed_second))
      [Scenario.request "openai/whisper-large-v3"] Scenario.fresh.
Proof.
  apply (model_name_is_ignored
           (Scenario.loads Scenario.malformed_second)
           (Scenario.loads_null_only Scenario.malformed_second)
           [Scenario.request "openai/whisper-tiny.en"]
           [Scenario.request "openai/whisper-large-v3"]
           Scenario.fresh).
  - intros n t. reflexivity.
  - constructor; [split; reflexivity | constructor].
Defined.

(** One chunk fed, two segments. On an engine whose merge returns two
    chunks for the one chunk fed, the Result carries the indices 0 and 1,
    not the single index 0. *)
Lemma one_fed_chunk_two_indices :
  transcribe (Scenario.loads Scenario.one_chunk) tt
    {| instance := Some (Scenario.splitting_engine Scenario.one_chunk);
       outbox := []; console := []; pipeline_calls := 1 |}
  = (Normal tt,
     {| instance := Some (Scenario.splitting_engine Scenario.one_chunk);
        outbox :=
          [ MsgLoading "loading";
            MsgLoading "success";
            MsgResult
              [ {| index := 0; p_text := "one two"; start := 0; end_ := 1 |};
                {| index := 1; p_text := "one two"; start := 1; end_ := 4 |} ]
              false JsUndefined;
            MsgInferenceDone ];
        console := []; pipeline_calls := 1 |})
  /\ List.length (finalized (fst Scenario.one_chunk)) = 1%nat
  /\ [0; 1]%nat <> seq 0 1.
Proof.
  split; [vm_compute; reflexivity|]. split; [reflexivity | discriminate].
Qed.

Lemma processed_chunk_indices_dense_witness :
  exists this' w',
    (this <- new_GenerationTracker
               (Some (Scenario.engine Scenario.malformed_second)) 5 ;;
     run_callbacks this
       (map ChunkFinalized
          [ Scenario.chunk " one" 0 (Some 2);
            Scenario.chunk " two" 5 (Some 3);
            Scenario.chunk " three" 6 (Some 8) ])) Scenario.fresh
    = (Normal this', w')
    /\ index <$> processed_chunks this' = [0; 1; 2]%nat.
Proof.
  destruct (proj2 processed_chunk_indices_dense
              (Scenario.engine Scenario.malformed_second) 5
              [ Scenario.chunk " one" 0 (Some 2);
                Scenario.chunk " two" 5 (Some 3);
                Scenario.chunk " three" 6 (Some 8) ]
              Scenario.fresh)
    as (this' & w' & Hrun & _ & _ & _ & Hfed).
  exists this', w'. split; [exact Hrun|].
  apply Hfed. intros l tp. reflexivity.
Defined.

(** * Further properties of the worker *)

(** ** Rounding and trimming in [processChunk] *)

Lemma Qfloor_unique (x : Q) (z : Z) :
  (inject_Z z <= x)%Q -> (x < inject_Z (z + 1))%Q -> Qfloor x = z.
Proof.
  intros Hlo Hhi.
  pose proof (Qfloor_le x) as Hf1. pose proof (Qlt_floor x) as Hf2.
  assert (H1 : (inject_Z (Qfloor x) < inject_Z (z + 1))%Q)
    by (eapply Qle_lt_trans; eassumption).
  assert (H2 : (inject_Z z < inject_Z (Qfloor x + 1))%Q)
    by (eapply Qle_lt_trans; eassumption).
  rewrite <- Zlt_Qlt in H1, H2. lia.
Qed.

Lemma Math_round_bounds (x : Q) :
  (inject_Z (Math_round x) - (1 # 2) <= x)%Q
  /\ (x < inject_Z (Math_round x) + (1 # 2))%Q.
Proof.
  unfold Math_round.
  pose proof (Qfloor_le (x + (1 # 2))) as H1.
  pose proof (Qlt_floor (x + (1 # 2))) as H2.
  rewrite inject_Z_plus in H2. change (inject_Z 1) with 1%Q in H2.
  split; lra.
Qed.

Lemma Math_round_inject_Z (n : Z) : Math_round (inject_Z n) = n.
Proof.
  unfold Math_round. apply Qfloor_unique.
  - lra.
  - rewrite inject_Z_plus. change (inject_Z 1) with 1%Q. lra.
Qed.

Lemma Math_round_stride_5 (s : Q) :
  Math_round (s + (9 # 10) * 5) = (Qfloor s + 5)%Z.
Proof.
  unfold Math_round. apply Qfloor_unique.
  - rewrite inject_Z_plus. change (inject_Z 5) with 5%Q.
    pose proof (Qfloor_le s). lra.
  - rewrite !inject_Z_plus.
    change (inject_Z 5) with 5%Q. change (inject_Z 1) with 1%Q.
    pose proof (Qlt_floor s) as H. rewrite inject_Z_plus in H.
    change (inject_Z 1) with 1%Q in H. lra.
Qed.

Lemma Math_round_floor (s : Q) :
  Math_round s = Qfloor s \/ Math_round s = (Qfloor s + 1)%Z.
Proof.
  destruct (Math_round_bounds s) as [H1 H2].
  pose proof (Qfloor_le s) as H3. pose proof (Qlt_floor s) as H4.
  rewrite inject_Z_plus in H4. change (inject_Z 1) with 1%Q in H4.
  assert (Ha : (inject_Z (Qfloor s) < inject_Z (Math_round s + 1))%Q).
  { rewrite inject_Z_plus. change (inject_Z 1) with 1%Q. lra. }
  assert (Hb : (inject_Z (Math_round s) < inject_Z (Qfloor s + 2))%Q).
  { rewrite inject_Z_plus. change (inject_Z 2) with 2%Q. lra. }
  rewrite <- Zlt_Qlt in Ha, Hb. lia.
Qed.

Lemma trimStart_split (s : string) :
  exists pre, s = (pre ++ trimStart s)%string /\ all_white_space pre = true.
Proof.
  induction s as [|c r IH]; simpl.
  - by exists EmptyString.
  - destruct (is_white_space c) eqn:Hc.
    + destruct IH as (pre & Hr & Hpre). exists (String c pre). simpl.
      rewrite <- Hr, Hc, Hpre. by split.
    + by exists EmptyString.
Qed.

Lemma trimEnd_split (s : string) :
  exists post, s = (trimEnd s ++ post)%string /\ all_white_space post = true.
Proof.
  induction s as [|c r IH]; simpl.
  - by exists EmptyString.
  - destruct IH as (post & Hr & Hpost).
    destruct (trimEnd r) as [|c' r'] eqn:Ht.
    + destruct (is_white_space c) eqn:Hc.
      * exists (String c post). simpl in *.
        split; [by f_equal | by rewrite Hc, Hpost].
      * exists post. simpl in *. split; [by f_equal | done].
    + exists post. simpl in *. split; [by f_equal | done].
Qed.

Lemma trimStart_first (s : string) (c : ascii) :
  first_char (trimStart s) = Some c -> is_white_space c = false.
Proof.
  induction s as [|a r IH]; simpl; [discriminate|].
  destruct (is_white_space a) eqn:Ha; [exact IH|].
  simpl. intros [= <-]. exact Ha.
Qed.

Lemma trimEnd_first (s : string) (c : ascii) :
  first_char (trimEnd s) = Some c -> first_char s = Some c.
Proof.
  destruct s as [|a r]; simpl; [discriminate|].
  destruct (trimEnd r); [destruct (is_white_space a)|]; simpl; congruence.
Qed.

Lemma trimEnd_last (s : string) (c : ascii) :
  last_char (trimEnd s) = Some c -> is_white_space c = false.
Proof.
  induction s as [|a r IH]; simpl; [discriminate|].
  destruct (trimEnd r) as [|c' r'] eqn:Ht.
  - destruct (is_white_space a) eqn:Ha; simpl; [discriminate|].
    intros [= <-]. exact Ha.
  - exact IH.
Qed.

Section ProcessChunkProperties.

Context {Audio Token ChunkData : Type}.

Implicit Types (this : GenerationTracker Audio Token ChunkData).

(** X1. With the stride of 5 seconds, a segment whose raw end is absent,
    or rounds to 0, lasts 4 or 5 seconds. *)
Theorem fallback_segment_lasts_4_or_5_seconds this (txt : string) (s : Q)
    (e : option Q) (i : nat) :
  stride_length_s this = 5 ->
  Math_round_nullable e = 0%Z ->
  let segment := processChunk this {| text := txt; timestamp := (s, e) |} i in
  (end_ segment - start segment = 4 \/ end_ segment - start segment = 5)%Z.
Proof.
  intros Hs He. unfold processChunk. simpl. rewrite He, Hs, number_or_zero.
  rewrite Math_round_stride_5. destruct (Math_round_floor s) as [-> | ->]; lia.
Qed.

(** X2. The processed start is the raw start to within half a second, so
    is the processed end when the raw end is present and does not round to
    0, and integral timestamps with a non-zero end come out unchanged. *)
Theorem processed_timestamps_are_within_half_a_second this (txt : string)
    (i : nat) :
  (forall (s : Q) (e : option Q),
      let segment :=
        processChunk this {| text := txt; timestamp := (s, e) |} i in
      (inject_Z (start segment) - (1 # 2) <= s)%Q
      /\ (s < inject_Z (start segment) + (1 # 2))%Q)
  /\ (forall (s e : Q),
         Math_round e <> 0%Z ->
         let segment :=
           processChunk this {| text := txt; timestamp := (s, Some e) |} i in
         (inject_Z (end_ segment) - (1 # 2) <= e)%Q
         /\ (e < inject_Z (end_ segment) + (1 # 2))%Q)
  /\ (forall (n m : Z),
         m <> 0%Z ->
         let segment :=
           processChunk this
             {| text := txt; timestamp := (inject_Z n, Some (inject_Z m)) |}
             i in
         start segment = n /\ end_ segment = m).
Proof.
  split; [|split].
  - intros s e. simpl. apply Math_round_bounds.
  - intros s e He. unfold processChunk. simpl.
    rewrite number_or_nonzero by done. apply Math_round_bounds.
  - intros n m Hm. unfold processChunk. simpl.
    rewrite !Math_round_inject_Z, number_or_nonzero by done. by split.
Qed.

(** X3. Rounding keeps the order of starts, and two chunks that share a
    boundary (the end of one is the start of the next) stay joined unless
    the boundary rounds to 0. *)
Theorem processed_starts_keep_order this (c1 c2 : RawChunk) (i j : nat) :
  (fst (timestamp c1) <= fst (timestamp c2))%Q ->
  (start (processChunk this c1 i) <= start (processChunk this c2 j))%Z
  /\ (forall e1,
         snd (timestamp c1) = Some e1 ->
         (e1 == fst (timestamp c2))%Q ->
         Math_round e1 <> 0%Z ->
         end_ (processChunk this c1 i) = start (processChunk this c2 j)).
Proof.
  intros Hle. unfold processChunk.
  destruct (timestamp c1) as [s1 oe1], (timestamp c2) as [s2 oe2].
  simpl in *. split.
  - by apply Math_round_mono.
  - intros e1 -> Heq Hne. simpl. rewrite number_or_nonzero by done.
    unfold Math_round. by rewrite Heq.
Qed.

(** X4. The processed text is the raw text without the white space around
    it: the raw text is white space, the processed text, white space, and
    the processed text neither begins nor ends with white space. *)
Theorem processed_text_is_trimmed this (c : RawChunk) (i : nat) :
  let t := p_text (processChunk this c i) in
  (exists pre post,
      text c = (pre ++ t ++ post)%string
      /\ all_white_space pre = true /\ all_white_space post = true)
  /\ (forall a, first_char t = Some a -> is_white_space a = false)
  /\ (forall a, last_char t = Some a -> is_white_space a = false).
Proof.
  unfold processChunk. destruct (timestamp c) as [s e]. simpl.
  unfold trim. split; [|split].
  - destruct (trimStart_split (text c)) as (pre & H1 & Hpre).
    destruct (trimEnd_split (trimStart (text c))) as (post & H2 & Hpost).
    exists pre, post. rewrite <- H2. by split.
  - intros a Ha. apply trimEnd_first in Ha. by apply trimStart_first in Ha.
  - intros a. apply trimEnd_last.
Qed.

End ProcessChunkProperties.

(** ** What the callbacks post *)

Section StreamingProperties.

Context {Audio Token ChunkData : Type}.

Implicit Types (this : GenerationTracker Audio Token ChunkData)
  (w : World Audio Token ChunkData)
  (evs : list (EngineEvent Token ChunkData)).

(** X5. Whatever the engine fires and whether or not a callback throws,
    every message the callbacks post is a Result with isDone = false whose
    segments are numbered 0, 1, ... in order, or a PartialResult whose end
    is undefined. *)
Theorem every_update_is_streaming this evs w :
  exists c ms,
    run_callbacks this evs w = (c, post w ms)
    /\ Forall streaming_update ms.
Proof.
  revert this w. induction evs as [|ev evs IH]; intros this w.
  - exists (Normal this), []. simpl. unfold ret. by rewrite post_nil.
  - simpl. unfold bind. destruct ev as [[|b bs]|data]; simpl.
    + unfold callbackFunction. cbv zeta. cbn [callbackFunctionCounter].
      destruct (_ =? 0)%nat; cbn [negb].
      * eexists _, []. rewrite post_nil. by split.
      * unfold ret.
        destruct (IH {| this_pipeline := this_pipeline this;
                        stride_length_s := stride_length_s this;
                        chunks := chunks this;
                        time_precision := time_precision this;
                        processed_chunks := processed_chunks this;
                        callbackFunctionCounter :=
                          callbackFunctionCounter this + 1 |} w)
          as (c & ms & Hrun & Hall).
        exists c, ms. by split.
    + rewrite callbackFunction_eq.
      set (m1 := if (_ =? 0)%nat then _ else _).
      destruct (IH {| this_pipeline := this_pipeline this;
                      stride_length_s := stride_length_s this;
                      chunks := chunks this;
                      time_precision := time_precision this;
                      processed_chunks := processed_chunks this;
                      callbackFunctionCounter :=
                        callbackFunctionCounter this + 1 |} (post w m1))
        as (c & ms & Hrun & Hall).
      exists c, (m1 ++ ms). rewrite Hrun, post_post. split; [done|].
      apply Forall_app. split; [|exact Hall].
      subst m1. destruct (_ =? 0)%nat; [constructor; [done|]|]; constructor.
    + rewrite chunkCallback_eq.
      set (t1 := {| this_pipeline := this_pipeline this |}).
      set (m1 := MsgResult _ _ _).
      destruct (IH t1 (post w [m1])) as (c & ms & Hrun & Hall).
      exists c, (m1 :: ms). rewrite Hrun, post_post. split; [done|].
      constructor; [|exact Hall]. subst m1. simpl. split; [done|].
      rewrite length_imap. apply processed_indices.
Qed.

(** X6. In a run whose beam updates all carry a beam, finalized chunks and
    beam updates do not disturb each other: the counter advances by the
    number of beam updates, the PartialResults posted are as many as the
    multiples of 10 it passes, and the Results are as many as the finalized
    chunks, however the two kinds of callback interleave. *)
Theorem results_and_partials_are_counted_apart this evs w :
  Forall (fun ev => has_beam ev = true) evs ->
  exists this' ms,
    run_callbacks this evs w = (Normal this', post w ms)
    /\ callbackFunctionCounter this'
       = (callbackFunctionCounter this + beam_updates evs)%nat
    /\ List.length (List.filter is_partial ms)
       = ((callbackFunctionCounter this + beam_updates evs) / 10
          - callbackFunctionCounter this / 10)%nat
    /\ List.length (List.filter is_result ms) = List.length (finalized evs)
    /\ List.length ms
       = (List.length (List.filter is_partial ms)
          + List.length (List.filter is_result ms))%nat.
Proof.
  intros Hbeams. revert this w.
  induction Hbeams as [|ev evs Hev _ IH]; intros this w.
  - exists this, []. simpl. unfold ret.
    rewrite post_nil, Nat.add_0_r, Nat.sub_diag. by repeat split.
  - simpl run_callbacks. unfold bind. destruct ev as [[|b bs]|d].
    + discriminate.
    + simpl on_event. rewrite callbackFunction_eq.
      set (t1 := {| this_pipeline := this_pipeline this |}).
      set (m1 := if (_ =? 0)%nat then _ else _).
      destruct (IH t1 (post w m1)) as (t2 & ms & Hrun & Hc & Hp & Hr & Hlen).
      exists t2, (m1 ++ ms). rewrite Hrun, post_post.
      assert (Hm1 : List.filter is_result m1 = []).
      { subst m1. by destruct (_ =? 0)%nat. }
      assert (Hm1' : List.filter is_partial m1 = m1).
      { subst m1. by destruct (_ =? 0)%nat. }
      assert (Hm1'' : List.length m1
                      = ((callbackFunctionCounter this + 1) / 10
                         - callbackFunctionCounter this / 10)%nat).
      { rewrite <- tenth_update_count. subst m1. simpl.
        by destruct (_ =? 0)%nat. }
      rewrite !List.filter_app, Hm1, Hm1', !length_app, Hm1''.
      simpl in Hc, Hp |- *.
      pose proof (Nat.Div0.div_le_mono (callbackFunctionCounter this)
                    (callbackFunctionCounter this + 1) 10 ltac:(lia)).
      pose proof (Nat.Div0.div_le_mono (callbackFunctionCounter this + 1)
                    (callbackFunctionCounter this + 1 + beam_updates evs) 10
                    ltac:(lia)).
      replace (callbackFunctionCounter this + S (beam_updates evs))%nat
        with (callbackFunctionCounter this + 1 + beam_updates evs)%nat
        by lia.
      repeat split; try done; lia.
    + simpl on_event. rewrite chunkCallback_eq.
      set (t1 := {| this_pipeline := this_pipeline this |}).
      set (m1 := MsgResult _ _ _).
      destruct (IH t1 (post w [m1])) as (t2 & ms & Hrun & Hc & Hp & Hr & Hlen).
      exists t2, (m1 :: ms). rewrite Hrun, post_post.
      simpl in Hc, Hp |- *. repeat split; try done; lia.
Qed.

(** X7. A beam update that carries no beam is harmless until the counter
    reaches a multiple of 10: there [beams[0].output_token_ids] throws a
    TypeError, nothing having been posted. *)
Theorem beam_update_without_beams_throws_at_tenth this (n : nat) w :
  exists c,
    run_callbacks this (replicate n (BeamUpdate [])) w = (c, w)
    /\ if (callbackFunctionCounter this mod 10 + n <? 10)%nat then
         exists this',
           c = Normal this'
           /\ callbackFunctionCounter this'
              = (callbackFunctionCounter this + n)%nat
           /\ processed_chunks this' = processed_chunks this
           /\ chunks this' = chunks this
       else
         c = Throw (TypeError
           "Cannot read properties of undefined (reading 'output_token_ids')").
Proof.
  revert this. induction n as [|n IH]; intros this.
  - exists (Normal this). split; [done|].
    pose proof (Nat.mod_upper_bound (callbackFunctionCounter this) 10).
    destruct (Nat.ltb_spec (callbackFunctionCounter this mod 10 + 0) 10);
      [|lia].
    exists this. by rewrite Nat.add_0_r.
  - simpl. unfold bind, callbackFunction. cbv zeta.
    cbn [callbackFunctionCounter].
    pose proof (Nat.div_mod_eq (callbackFunctionCounter this) 10).
    pose proof (Nat.div_mod_eq (callbackFunctionCounter this + 1) 10).
    pose proof (Nat.mod_upper_bound (callbackFunctionCounter this) 10).
    pose proof (Nat.mod_upper_bound (callbackFunctionCounter this + 1) 10).
    destruct (Nat.eqb_spec ((callbackFunctionCounter this + 1) mod 10) 0)
      as [Hz|Hnz]; cbn [negb].
    + eexists. split; [reflexivity|].
      destruct (Nat.ltb_spec (callbackFunctionCounter this mod 10 + S n) 10);
        [lia | done].
    + unfold ret.
      destruct (IH {| this_pipeline := this_pipeline this;
                      stride_length_s := stride_length_s this;
                      chunks := chunks this;
                      time_precision := time_precision this;
                      processed_chunks := processed_chunks this;
                      callbackFunctionCounter :=
                        callbackFunctionCounter this + 1 |})
        as (c & Hrun & Hc).
      exists c. split; [exact Hrun|]. simpl in Hc.
      destruct (Nat.ltb_spec ((callbackFunctionCounter this + 1) mod 10 + n)
                  10);
        destruct (Nat.ltb_spec (callbackFunctionCounter this mod 10 + S n)
                    10); try lia.
      * destruct Hc as (t' & -> & H5 & H6 & H7). exists t'.
        repeat split; [lia | done | done].
      * done.
Qed.

End StreamingProperties.

(** ** Requests and the singleton engine *)

Section RequestProperties.

Context {Audio Token ChunkData : Type}.

Implicit Types (w : World Audio Token ChunkData)
  (p : Pipeline Audio Token ChunkData)
  (factory : nat -> string -> option string -> Load Audio Token ChunkData)
  (audio : Audio) (queue : list (EventData Audio)).

Lemma downloading_messages_kind (ds : list ProgressData) :
  Forall (fun m => msg_type m = DOWNLOADING) (downloading_messages ds).
Proof.
  induction ds as [|d ds IH]; simpl; [constructor|].
  destruct (String.eqb _ _); simpl; [by constructor | done].
Qed.

Lemma run_request_outcome p audio w :
  exists c ms0,
    run_request p audio w = (c, post w (ms0 ++ final_message c))
    /\ Forall (fun m => msg_type m = RESULT \/ msg_type m = RESULT_PARTIAL)
              ms0.
Proof.
  unfold run_request, bind, call_pipeline. simpl.
  destruct (call p audio (run_options 5)) as [events settled]. simpl.
  unfold bind.
  destruct (run_callbacks_posts
              {| this_pipeline := p; stride_length_s := 5; chunks := [];
                 time_precision :=
                   number_div (config_chunk_length p)
                              (config_max_source_positions p);
                 processed_chunks := []; callbackFunctionCounter := 0 |}
              events w) as (c0 & ms0 & Hrun & Hall).
  rewrite Hrun. destruct c0 as [t'|e].
  - destruct settled as [|m]; simpl.
    + exists (Normal tt), ms0.
      rewrite (sendFinalResult_post t'), post_post. by split.
    + exists (Throw (Error m)), ms0. simpl. by rewrite app_nil_r.
  - exists (Throw e), ms0. simpl. by rewrite app_nil_r.
Qed.

(** Every request, whatever happens to it. *)
Lemma transcribe_shape factory audio w :
  exists c ms0,
    transcribe factory audio w
    = (c,
       {| instance := engine_of factory w;
          outbox :=
            outbox w
            ++ MsgLoading "loading"
               :: first_load_messages factory w
               ++ MsgLoading "success" :: ms0 ++ final_message c;
          console := console w ++ load_error factory w;
          pipeline_calls :=
            pipeline_calls w
            + match instance w with Some _ => 0 | None => 1 end |})
    /\ Forall (fun m => msg_type m = RESULT \/ msg_type m = RESULT_PARTIAL)
              ms0.
Proof.
  unfold engine_of, first_load_messages, load_error.
  destruct (instance w) as [p|] eqn:Hi.
  - rewrite (transcribe_with_instance factory audio w p Hi).
    destruct (run_request_outcome p audio
                (post w [MsgLoading "loading"; MsgLoading "success"]))
      as (c & ms0 & Hrun & Hall).
    exists c, ms0. rewrite Hrun. split; [|done]. f_equal.
    unfold post. simpl. rewrite Hi, app_nil_r, Nat.add_0_r.
    by rewrite <- app_assoc.
  - destruct (load_result (factory (pipeline_calls w) task None))
      as [p|msg] eqn:Hload.
    + rewrite (transcribe_building factory audio w p Hi Hload).
      set (w1 := {| instance := Some p |}).
      destruct (run_request_outcome p audio w1) as (c & ms0 & Hrun & Hall).
      exists c, ms0. rewrite Hrun. split; [|done]. f_equal.
      unfold post. simpl. rewrite app_nil_r, Nat.add_1_r.
      by repeat (rewrite <- app_assoc; simpl).
    + rewrite (transcribe_load_failure factory audio w msg Hi Hload).
      eexists _, []. split; [|constructor]. f_equal. simpl.
      by rewrite Nat.add_1_r.
Qed.

Lemma dispatch_eq factory w (d : EventData Audio) :
  dispatch factory w d
  = if is_request d then snd (transcribe factory (audio d) w) else w.
Proof.
  unfold dispatch, onmessage, is_request.
  destruct (decide _) as [H|H].
  - by rewrite bool_decide_eq_true_2.
  - by rewrite bool_decide_eq_false_2.
Qed.

(** X8. The messages of a request come in this order, whether it succeeds
    or throws: Loading "loading"; the Downloading messages of the load, if
    the request triggers one; Loading "success"; Results and
    PartialResults; and Done, last, exactly when the request ran to its
    end. *)
Theorem request_messages_are_ordered factory audio w :
  exists c w' downs updates,
    transcribe factory audio w = (c, w')
    /\ outbox w'
       = outbox w
         ++ MsgLoading "loading" :: downs
         ++ MsgLoading "success" :: updates ++ final_message c
    /\ Forall (fun m => msg_type m = DOWNLOADING) downs
    /\ Forall (fun m => msg_type m = RESULT \/ msg_type m = RESULT_PARTIAL)
              updates
    /\ match instance w with Some _ => downs = [] | None => True end.
Proof.
  destruct (transcribe_shape factory audio w) as (c & ms0 & Htr & Hall).
  eexists c, _, (first_load_messages factory w), ms0.
  split; [exact Htr|]. simpl. split; [done|].
  unfold first_load_messages. split; [|split; [done|]].
  - destruct (instance w); [constructor | apply downloading_messages_kind].
  - by destruct (instance w).
Qed.


(** X10. The instance is tested before the load and assigned after it, so
    the guard of [getInstance] does not cover a pending load: two requests
    delivered while no instance is set each call the factory and each wait
    for their own load; and a load that ends with an engine makes it the
    instance whatever the instance was, so that the load ending last
    decides it. *)
Theorem overlapping_requests_each_call_the_factory factory w
    (d1 d2 : EventData Audio) queue :
  instance w = None ->
  is_request d1 = true -> is_request d2 = true ->
  (let n := pipeline_calls w in
   let s :=
     event_loop factory [Deliver; Deliver]
       {| world := w; inbox := d1 :: d2 :: queue; jobs := [] |} in
   pipeline_calls (world s) = S (S n)
   /\ instance (world s) = None
   /\ inbox s = queue
   /\ jobs s
      = [ AwaitingLoad (audio d1)
            (progress_events (factory n task None))
            (load_result (factory n task None));
          AwaitingLoad (audio d2)
            (progress_events (factory (S n) task None))
            (load_result (factory (S n) task None)) ])
  /\ (forall (s0 : WorkerState Audio Token ChunkData) (i : nat)
             (a : Audio) (p : Pipeline Audio Token ChunkData),
         jobs s0 !! i = Some (AwaitingLoad a [] (Built p)) ->
         instance (world (turn factory s0 (Resume i))) = Some p
         /\ pipeline_calls (world (turn factory s0 (Resume i)))
            = pipeline_calls (world s0)).
Proof.
  intros Hi H1 H2. split.
  - cbv zeta. unfold event_loop. simpl.
    rewrite (deliver_load factory d1 w H1 Hi). simpl.
    rewrite (deliver_load factory d2); [|done|done]. simpl.
    by repeat split.
  - intros s0 i a p Hl. simpl. rewrite Hl.
    unfold resume, bind, set_instance, modify.
    rewrite after_getInstance_eq. simpl. by split.
Qed.

(** X11. A failed load is not remembered: the instance stays null and the
    error message goes to the console, and the next request calls the
    factory again and keeps the engine it then builds. *)
Theorem failed_load_is_tried_again factory w p msg
    (d1 d2 : EventData Audio) :
  instance w = None ->
  load_result (factory (pipeline_calls w) task None) = Failed msg ->
  load_result (factory (S (pipeline_calls w)) task None) = Built p ->
  is_request d1 = true -> is_request d2 = true ->
  let w1 := dispatch factory w d1 in
  let w2 := dispatch factory w1 d2 in
  instance w1 = None
  /\ console w1 = console w ++ [msg]
  /\ pipeline_calls w1 = S (pipeline_calls w)
  /\ instance w2 = Some p
  /\ pipeline_calls w2 = S (S (pipeline_calls w)).
Proof.
  intros Hi Hf Hb H1 H2. simpl. rewrite !dispatch_eq, H1, H2.
  destruct (transcribe_shape factory (audio d1) w) as (c & ms0 & Htr & _).
  rewrite Htr. simpl. set (w1 := {| instance := engine_of factory w |}).
  assert (Hi1 : instance w1 = None).
  { simpl. unfold engine_of. by rewrite Hi, Hf. }
  assert (Hc1 : pipeline_calls w1 = S (pipeline_calls w)).
  { simpl. rewrite Hi. lia. }
  destruct (transcribe_shape factory (audio d2) w1) as (c' & ms' & Htr' & _).
  rewrite Htr'. simpl. unfold engine_of at 2. rewrite Hi1, Hc1, Hb.
  unfold load_error. rewrite !Hi, Hf.
  assert (He : engine_of factory w = None).
  { unfold engine_of. by rewrite Hi, Hf. }
  rewrite He. repeat split; try done; lia.
Qed.

(** X12. Messages whose type is not INFERENCE_REQUEST are no-ops wherever
    they stand in the queue: for handlers run one after the other, and for
    the event loop, where the turns that deliver them can be left out. *)
Theorem other_messages_are_ignored factory w queue :
  fold_left (dispatch factory) queue w
  = fold_left (dispatch factory) (List.filter is_request queue) w
  /\ (forall (turns : list Turn) (pending : list (Job Audio Token ChunkData)),
         exists turns',
           let s :=
             event_loop factory turns
               {| world := w; inbox := queue; jobs := pending |} in
           let s' :=
             event_loop factory turns'
               {| world := w; inbox := List.filter is_request queue;
                  jobs := pending |} in
           world s = world s' /\ jobs s = jobs s'
           /\ inbox s' = List.filter is_request (inbox s)).
Proof.
  split.
  - revert w. induction queue as [|d queue IH]; intros w; [done|].
    simpl. rewrite dispatch_eq.
    destruct (is_request d) eqn:Hd; simpl.
    + rewrite dispatch_eq, Hd. apply IH.
    + apply IH.
  - intros turns pending. cbv zeta.
    by apply event_loop_filter.
Qed.

(** X13. Nothing is ever taken back: whatever messages arrive, the outbox
    and the console only grow at their ends, and the factory is called at
    most once for each INFERENCE_REQUEST. This holds for handlers run one
    after the other and for the event loop over any order of turns. *)
Theorem worker_state_only_grows factory w queue :
  (let w' := fold_left (dispatch factory) queue w in
   (exists ms, outbox w' = outbox w ++ ms)
   /\ (exists logs, console w' = console w ++ logs)
   /\ (pipeline_calls w <= pipeline_calls w'
       <= pipeline_calls w + List.length (List.filter is_request queue))%nat)
  /\ (forall (turns : list Turn) (pending : list (Job Audio Token ChunkData)),
         let w' :=
           world (event_loop factory turns
                    {| world := w; inbox := queue; jobs := pending |}) in
         (exists ms, outbox w' = outbox w ++ ms)
         /\ (exists logs, console w' = console w ++ logs)
         /\ (pipeline_calls w <= pipeline_calls w'
             <= pipeline_calls w
                + List.length (List.filter is_request queue))%nat).
Proof.
  split.
  - cbv zeta.
    revert w. induction queue as [|d queue IH]; intros w.
    + simpl. split; [|split; [|lia]]; exists []; by rewrite app_nil_r.
    + simpl. rewrite dispatch_eq. destruct (is_request d); [|by apply IH].
      destruct (transcribe_shape factory (audio d) w) as (c & ms0 & Htr & _).
      rewrite Htr. simpl. set (w1 := {| instance := engine_of factory w |}).
      destruct (IH w1) as ([ms Hm] & [logs Hl] & Hc).
      split; [|split].
      * eexists. rewrite Hm. simpl. by rewrite <- app_assoc.
      * eexists. rewrite Hl. simpl. by rewrite <- app_assoc.
      * simpl in Hc. destruct (instance w); lia.
  - intros turns pending. cbv zeta.
    destruct (event_loop_grows factory turns
                {| world := w; inbox := queue; jobs := pending |})
      as (H1 & H2 & H3 & H4).
    simpl in *. split; [done|]. split; [done|]. lia.
Qed.

End RequestProperties.

(** ** Handlers run one after the other are one run of the event loop *)

Section EventLoopRefinement.

Context {Audio Token ChunkData : Type}.

Implicit Types (w : World Audio Token ChunkData)
  (this : GenerationTracker Audio Token ChunkData)
  (factory : nat -> string -> option string -> Load Audio Token ChunkData)
  (d : EventData Audio) (q : list (EventData Audio)).

(** A handler that waits for the run, resumed until it ends, does what the
    rest of [transcribe] does. *)
Lemma finish_run factory this (events : list (EngineEvent Token ChunkData))
    (settled : Settled) w q :
  exists k,
    event_loop factory (replicate k (Resume 0))
      {| world := w; inbox := q; jobs := [AwaitingRun this events settled] |}
    = {| world :=
           snd ((t <- (this' <- run_callbacks this events ;;
                       match settled with
                       | Resolved => ret this'
                       | Rejected m => throw (Error m)
                       end) ;;
                 sendFinalResult t) w);
         inbox := q; jobs := [] |}.
Proof.
  revert this w. induction events as [|ev events IH]; intros this w.
  - exists 1%nat. unfold event_loop. simpl.
    destruct settled as [|m]; reflexivity.
  - destruct (on_event this ev w) as [[this'|e] w1] eqn:Hev.
    + destruct (IH this' w1) as [k Hk]. exists (S k).
      unfold event_loop in *. simpl. unfold bind at 1. rewrite Hev.
      simpl. rewrite Hk. unfold bind. simpl. by rewrite Hev.
    + exists 1%nat. unfold event_loop. simpl. unfold bind. by rewrite Hev.
Qed.

Lemma run_request_tail (p : Pipeline Audio Token ChunkData) (a : Audio) w :
  run_request p a w
  = (t <- (this' <- run_callbacks
                      {| this_pipeline := p; stride_length_s := 5;
                         chunks := [];
                         time_precision :=
                           number_div (config_chunk_length p)
                                      (config_max_source_positions p);
                         processed_chunks := [];
                         callbackFunctionCounter := 0 |}
                      (fst (call p a (run_options 5))) ;;
           match snd (call p a (run_options 5)) with
           | Resolved => ret this'
           | Rejected m => throw (Error m)
           end) ;;
     sendFinalResult t) w.
Proof.
  unfold run_request, bind, call_pipeline. simpl.
  by destruct (call p a (run_options 5)).
Qed.

Lemma event_loop_cons factory (t : Turn) (turns : list Turn)
    (s : WorkerState Audio Token ChunkData) :
  event_loop factory (t :: turns) s
  = event_loop factory turns (turn factory s t).
Proof. reflexivity. Qed.

Lemma turn_resume_single factory (j : Job Audio Token ChunkData) w q :
  turn factory {| world := w; inbox := q; jobs := [j] |} (Resume 0)
  = {| world := snd (resume j w); inbox := q;
       jobs := suspended (fst (resume j w)) |}.
Proof.
  simpl. destruct (resume j w) as [c w']. simpl. by rewrite app_nil_r.
Qed.

Lemma resume_load_built (a : Audio) (p : Pipeline Audio Token ChunkData) w :
  resume (AwaitingLoad a [] (Built p)) w
  = (Normal
       (Some
          (AwaitingRun
             {| this_pipeline := p; stride_length_s := 5; chunks := [];
                time_precision :=
                  number_div (config_chunk_length p)
                             (config_max_source_positions p);
                processed_chunks := []; callbackFunctionCounter := 0 |}
             (fst (call p a (run_options 5)))
             (snd (call p a (run_options 5))))),
     {| instance := Some p;
        outbox := outbox w ++ [MsgLoading "success"];
        console := console w;
        pipeline_calls := pipeline_calls w |}).
Proof.
  unfold resume, bind, set_instance, modify.
  rewrite after_getInstance_eq. reflexivity.
Qed.

Lemma resume_load_failed (a : Audio) (m : string) w :
  resume (AwaitingLoad a [] (Failed m) : Job Audio Token ChunkData) w
  = (Throw (TypeError "Cannot read properties of undefined (reading 'model')"),
     {| instance := instance w;
        outbox := outbox w ++ [MsgLoading "success"];
        console := console w ++ [m];
        pipeline_calls := pipeline_calls w |}).
Proof.
  unfold resume, bind, console_log, modify.
  rewrite after_getInstance_eq. reflexivity.
Qed.

Lemma resume_load_progress (a : Audio) (data : ProgressData)
    (progress : list ProgressData) (result : LoadResult) w :
  resume (AwaitingLoad a (data :: progress) result
          : Job Audio Token ChunkData) w
  = (Normal (Some (AwaitingLoad a progress result)),
     {| instance := instance w;
        outbox := outbox w ++ downloading_messages [data];
        console := console w;
        pipeline_calls := pipeline_calls w |}).
Proof.
  unfold resume, bind, load_model_callback. simpl.
  destruct (String.eqb (pd_status data) "progress"); simpl.
  - reflexivity.
  - rewrite app_nil_r. by destruct w.
Qed.

(** A handler that waits for the load, resumed until it ends. *)
Lemma finish_load factory (a : Audio) (progress : list ProgressData)
    (result : LoadResult) w q :
  exists k,
    event_loop factory (replicate k (Resume 0))
      {| world := w; inbox := q;
         jobs := [AwaitingLoad a progress result] |}
    = {| world :=
           match result with
           | Built p =>
               snd (run_request p a
                      {| instance := Some p;
                         outbox := outbox w ++ downloading_messages progress
                                   ++ [MsgLoading "success"];
                         console := console w;
                         pipeline_calls := pipeline_calls w |})
           | Failed m =>
               {| instance := instance w;
                  outbox := outbox w ++ downloading_messages progress
                            ++ [MsgLoading "success"];
                  console := console w ++ [m];
                  pipeline_calls := pipeline_calls w |}
           end;
         inbox := q; jobs := [] |}.
Proof.
  revert w. induction progress as [|data progress IH]; intros w.
  - destruct result as [p|m].
    + destruct (finish_run factory
                  {| this_pipeline := p; stride_length_s := 5; chunks := [];
                     time_precision :=
                       number_div (config_chunk_length p)
                                  (config_max_source_positions p);
                     processed_chunks := []; callbackFunctionCounter := 0 |}
                  (fst (call p a (run_options 5)))
                  (snd (call p a (run_options 5)))
                  {| instance := Some p;
                     outbox := outbox w ++ [MsgLoading "success"];
                     console := console w;
                     pipeline_calls := pipeline_calls w |} q) as [k Hk].
      exists (S k). cbn [replicate].
      rewrite event_loop_cons, turn_resume_single, resume_load_built.
      cbn [fst snd suspended]. rewrite Hk.
      by rewrite run_request_tail.
    + exists 1%nat. cbn [replicate].
      rewrite event_loop_cons, turn_resume_single, resume_load_failed.
      reflexivity.
  - destruct (IH {| instance := instance w;
                    outbox := outbox w ++ downloading_messages [data];
                    console := console w;
                    pipeline_calls := pipeline_calls w |}) as [k Hk].
    exists (S k). cbn [replicate].
    rewrite event_loop_cons, turn_resume_single, resume_load_progress.
    cbn [fst snd suspended]. rewrite Hk. cbn [instance outbox console
                                              pipeline_calls].
    assert (Hd : forall (l : list Message),
               (outbox w ++ downloading_messages [data])
               ++ downloading_messages progress ++ l
               = outbox w ++ downloading_messages (data :: progress) ++ l).
    { intros l. simpl. rewrite app_nil_r.
      by rewrite <- !app_assoc. }
    by rewrite Hd.
Qed.

(** One message, handled to its end before anything else. *)
Lemma event_loop_dispatch factory d w q :
  exists turns,
    event_loop factory turns {| world := w; inbox := d :: q; jobs := [] |}
    = {| world := dispatch factory w d; inbox := q; jobs := [] |}.
Proof.
  rewrite dispatch_eq. destruct (is_request d) eqn:Hd.
  - destruct (instance w) as [p|] eqn:Hi.
    + rewrite (transcribe_with_instance factory (audio d) w p Hi).
      destruct (finish_run factory
                  {| this_pipeline := p; stride_length_s := 5; chunks := [];
                     time_precision :=
                       number_div (config_chunk_length p)
                                  (config_max_source_positions p);
                     processed_chunks := []; callbackFunctionCounter := 0 |}
                  (fst (call p (audio d) (run_options 5)))
                  (snd (call p (audio d) (run_options 5)))
                  (post w [MsgLoading "loading"; MsgLoading "success"]) q)
        as [k Hk].
      exists (Deliver :: replicate k (Resume 0)).
      unfold event_loop in *. simpl.
      assert (Hdel : deliver factory d w
                = (Normal
                     (Some
                        (AwaitingRun
                           {| this_pipeline := p; stride_length_s := 5;
                              chunks := [];
                              time_precision :=
                                number_div (config_chunk_length p)
                                           (config_max_source_positions p);
                              processed_chunks := [];
                              callbackFunctionCounter := 0 |}
                           (fst (call p (audio d) (run_options 5)))
                           (snd (call p (audio d) (run_options 5))))),
                   post w [MsgLoading "loading"; MsgLoading "success"])).
      { unfold is_request in Hd. apply bool_decide_eq_true in Hd.
        unfold deliver. destruct (decide _); [|done].
        unfold bind. simpl. rewrite Hi. unfold bind.
        rewrite after_getInstance_eq. f_equal.
        unfold post. simpl. by rewrite Hi, <- app_assoc. }
      rewrite Hdel. simpl. rewrite Hk. by rewrite run_request_tail.
    + destruct (finish_load factory (audio d)
                  (progress_events (factory (pipeline_calls w) task None))
                  (load_result (factory (pipeline_calls w) task None))
                  {| instance := None;
                     outbox := outbox w ++ [MsgLoading "loading"];
                     console := console w;
                     pipeline_calls := S (pipeline_calls w) |} q) as [k Hk].
      exists (Deliver :: replicate k (Resume 0)).
      unfold event_loop in *. simpl.
      rewrite (deliver_load factory d w Hd Hi). simpl. rewrite Hk.
      destruct (load_result (factory (pipeline_calls w) task None))
        as [p|m] eqn:Hload.
      * rewrite (transcribe_building factory (audio d) w p Hi Hload).
        simpl. by rewrite <- !app_assoc.
      * rewrite (transcribe_load_failure factory (audio d) w m Hi Hload).
        simpl. by rewrite <- !app_assoc.
  - exists [Deliver]. unfold event_loop. simpl.
    rewrite (deliver_other factory d w Hd). reflexivity.
Qed.

(** A queue handled one message after the other. *)
Lemma event_loop_one_at_a_time factory q w :
  exists turns,
    event_loop factory turns {| world := w; inbox := q; jobs := [] |}
    = {| world := fold_left (dispatch factory) q w;
         inbox := []; jobs := [] |}.
Proof.
  revert w. induction q as [|d q IH]; intros w.
  - by exists [].
  - destruct (event_loop_dispatch factory d w q) as [t1 H1].
    destruct (IH (dispatch factory w d)) as [t2 H2].
    exists (t1 ++ t2). unfold event_loop in *.
    by rewrite fold_left_app, H1, H2.
Qed.

End EventLoopRefinement.

(** * Properties of the page *)

Section PageProperties.

Context {Source : Type}.
Variable value : MessageTypes -> string.
Hypothesis presets : presets_as_named value.

Implicit Types (a : AppState Source) (ms : list Message).

Lemma onMessageReceived_eq (m : Message) a :
  onMessageReceived value m a
  = match m with
    | MsgDownloading _ _ _ _ =>
        app_log (LogText "DOWNLOADING") (setDownloading true a)
    | MsgLoading _ => app_log (LogText "LOADING") (setLoading true a)
    | MsgResult results _ _ =>
        app_log (LogResults (Some results)) (setOutput (Some results) a)
    | MsgResultPartial _ => a
    | MsgInferenceDone => app_log (LogText "DONE") (setFinished true a)
    end.
Proof.
  destruct presets as (Hd & Hl & Hr & Hf & Hp).
  unfold onMessageReceived. destruct m; simpl msg_type.
  - by rewrite Hl.
  - by rewrite Hd.
  - by rewrite Hr.
  - simpl in Hp.
    destruct (String.eqb_spec (value RESULT_PARTIAL) "DOWNLOADING") as [E|_];
      [exfalso; apply Hp; auto 10|].
    destruct (String.eqb_spec (value RESULT_PARTIAL) "LOADING") as [E|_];
      [exfalso; apply Hp; auto 10|].
    destruct (String.eqb_spec (value RESULT_PARTIAL) "RESULT") as [E|_];
      [exfalso; apply Hp; auto 10|].
    destruct (String.eqb_spec (value RESULT_PARTIAL) "INFERENCE_DONE")
      as [E|_]; [exfalso; apply Hp; auto 10|].
    reflexivity.
  - by rewrite Hf.
Qed.

Lemma receive_all_app ms ms' a :
  receive_all value (ms ++ ms') a
  = receive_all value ms' (receive_all value ms a).
Proof. unfold receive_all. apply fold_left_app. Qed.

Lemma receive_all_cons (m : Message) ms a :
  receive_all value (m :: ms) a
  = receive_all value ms (onMessageReceived value m a).
Proof. reflexivity. Qed.

Lemma receive_downloading ms a :
  Forall (fun m => msg_type m = DOWNLOADING) ms ->
  let a' := receive_all value ms a in
  output a' = output a /\ loading a' = loading a
  /\ finished a' = finished a.
Proof.
  intros H. simpl. revert a. induction H as [|m ms Hm _ IH]; intros a.
  - done.
  - unfold receive_all in *. simpl. rewrite onMessageReceived_eq.
    destruct m; try discriminate.
    destruct (IH (app_log (LogText "DOWNLOADING") (setDownloading true a)))
      as (H1 & H2 & H3).
    by rewrite H1, H2, H3.
Qed.

Lemma receive_updates ms a :
  Forall (fun m => msg_type m = RESULT \/ msg_type m = RESULT_PARTIAL) ms ->
  let a' := receive_all value ms a in
  loading a' = loading a
  /\ finished a' = finished a
  /\ output a'
     = match last (List.filter is_result ms) with
       | Some m => data_results m
       | None => output a
       end.
Proof.
  simpl. induction ms as [|m ms IH] using rev_ind; intros Hall.
  - done.
  - apply Forall_app in Hall. destruct Hall as [Hms Hm].
    inversion Hm as [|? ? Hk _]; subst.
    rewrite receive_all_app, List.filter_app.
    destruct (IH Hms) as (H1 & H2 & H3).
    unfold receive_all at 1 3 5. simpl. rewrite onMessageReceived_eq.
    destruct m; simpl in Hk; try (destruct Hk; discriminate).
    + simpl. rewrite last_snoc. by rewrite H1, H2.
    + simpl. rewrite app_nil_r. by rewrite H1, H2, H3.
Qed.

(** X14. What the page has learnt from the worker it keeps: whatever
    messages arrive, [downloading], [loading] and [finished] stay set once
    set, the output stays present once present, so that the page stays on
    the result screen once it shows it, and the chosen audio is not
    touched. *)
Theorem page_progress_is_kept ms a :
  let a' := receive_all value ms a in
  (downloading a = true -> downloading a' = true)
  /\ (loading a = true -> loading a' = true)
  /\ (finished a = true -> finished a' = true)
  /\ (forall o f, render a = InformationView o f ->
                  exists o' f', render a' = InformationView o' f')
  /\ file a' = file a
  /\ audioStream a' = audioStream a.
Proof.
  simpl. revert a. induction ms as [|m ms IH]; intros a.
  - repeat split; try done. intros o f H. by exists o, f.
  - unfold receive_all in *. simpl. rewrite onMessageReceived_eq.
    destruct (IH (match m with
                  | MsgDownloading _ _ _ _ =>
                      app_log (LogText "DOWNLOADING") (setDownloading true a)
                  | MsgLoading _ =>
                      app_log (LogText "LOADING") (setLoading true a)
                  | MsgResult results _ _ =>
                      app_log (LogResults (Some results))
                              (setOutput (Some results) a)
                  | MsgResultPartial _ => a
                  | MsgInferenceDone =>
                      app_log (LogText "DONE") (setFinished true a)
                  end)) as (H1 & H2 & H3 & H4 & H5 & H6).
    split; [|split; [|split; [|split; [|split]]]].
    + intros H. apply H1. by destruct m.
    + intros H. apply H2. by destruct m.
    + intros H. apply H3. by destruct m.
    + intros o f H. unfold render in H.
      destruct (output a) as [o0|] eqn:Ho.
      * destruct m; simpl in *;
          (eapply H4; unfold render; simpl; rewrite ?Ho; reflexivity).
      * destruct (loading a), (isAudioAvailable a); discriminate.
    + rewrite H5. by destruct m.
    + rewrite H6. by destruct m.
Qed.

(** X15. The page drops partial results, and of a Result it reads the
    segments only: PartialResult messages can be removed from what it
    receives, and the isDone and completedUntilTimestamp of a Result can be
    changed, without any effect on the page. *)
Theorem page_ignores_partial_results ms a :
  receive_all value ms a
  = receive_all value (List.filter (fun m => negb (is_partial m)) ms) a
  /\ (forall results isDone completed isDone' completed',
         onMessageReceived value (MsgResult results isDone completed) a
         = onMessageReceived value (MsgResult results isDone' completed') a).
Proof.
  split.
  - revert a. induction ms as [|m ms IH]; intros a; [done|].
    unfold receive_all in *. simpl.
    destruct m; simpl; try apply IH.
    rewrite onMessageReceived_eq. apply IH.
  - intros. by rewrite !onMessageReceived_eq.
Qed.

End PageProperties.

(** ** The page and the worker together *)

Section SubmitProperties.

Context {Audio Token ChunkData Source : Type}.
Variable value : MessageTypes -> string.
Variable readAudioFrom : Source -> Audio.
Variable factory : nat -> string -> option string -> Load Audio Token ChunkData.
Hypothesis presets : presets_as_named value.

Implicit Types (a : AppState Source) (w : World Audio Token ChunkData)
  (p : Pipeline Audio Token ChunkData).

Lemma handleFormSubmission_request a (d : EventData Audio) :
  handleFormSubmission readAudioFrom a = Some d ->
  is_request d = true
  /\ model_name d = "openai/whisper-tiny.en"
  /\ exists f, audio d = readAudioFrom f
               /\ (file a = Some f
                   \/ (file a = None /\ audioStream a = Some f)).
Proof.
  unfold handleFormSubmission.
  destruct (file a) as [f|] eqn:Hf; [|destruct (audioStream a) as [f|] eqn:Hs].
  - intros [= <-]. repeat split. exists f. split; [done | by left].
  - intros [= <-]. repeat split. exists f. split; [done | by right].
  - discriminate.
Qed.

Lemma new_messages_app w w' (ms : list Message) :
  outbox w' = outbox w ++ ms -> new_messages w w' = ms.
Proof. intros H. unfold new_messages. rewrite H. apply drop_app_length. Qed.

(** A request whose engine call resolves and whose beam updates carry a
    beam. *)
Lemma transcribe_resolved audio w p
    (events : list (EngineEvent Token ChunkData)) :
  engine_of factory w = Some p ->
  call p audio (run_options 5) = (events, Resolved) ->
  Forall (fun ev => has_beam ev = true) events ->
  exists w' downs ms,
    transcribe factory audio w = (Normal tt, w')
    /\ outbox w'
       = outbox w
         ++ MsgLoading "loading" :: downs
         ++ MsgLoading "success" :: ms ++ [MsgInferenceDone]
    /\ Forall (fun m => msg_type m = DOWNLOADING) downs
    /\ Forall (fun m => msg_type m = RESULT \/ msg_type m = RESULT_PARTIAL) ms
    /\ match finalized events with
       | [] => List.filter is_result ms = []
       | _ =>
           let this0 :=
             {| this_pipeline := p; stride_length_s := 5; chunks := [];
                time_precision :=
                  number_div (config_chunk_length p)
                             (config_max_source_positions p);
                processed_chunks := []; callbackFunctionCounter := 0 |} in
           exists completed,
             last (List.filter is_result ms)
             = Some (MsgResult
                       (imap (fun i c => processChunk this0 c i)
                          (snd (tokenizer_decode_asr p (finalized events)
                                  (time_precision this0))))
                       false completed)
       end.
Proof.
  intros He Hcall Hbeams.
  assert (Hreq : forall w2,
    exists ms,
      run_request p audio w2 = (Normal tt, post w2 (ms ++ [MsgInferenceDone]))
      /\ Forall (fun m => msg_type m = RESULT \/ msg_type m = RESULT_PARTIAL)
                ms
      /\ match finalized events with
         | [] => List.filter is_result ms = []
         | _ =>
             exists completed,
               last (List.filter is_result ms)
               = Some (MsgResult
                         (imap (fun i c =>
                                  processChunk
                                    {| this_pipeline := p;
                                       stride_length_s := 5; chunks := [];
                                       time_precision :=
                                         number_div (config_chunk_length p)
                                           (config_max_source_positions p);
                                       processed_chunks := [];
                                       callbackFunctionCounter := 0 |} c i)
                            (snd (tokenizer_decode_asr p (finalized events)
                                    (number_div (config_chunk_length p)
                                       (config_max_source_positions p)))))
                         false completed)
         end).
  { intros w2. unfold run_request, bind, call_pipeline. simpl.
    rewrite Hcall. unfold bind.
    set (t0 := {| this_pipeline := p |}).
    destruct (run_events t0 events w2 Hbeams)
      as (t' & ms & Hrun & Hch & Hp & Hs & Htp & Hall & Hlen & Hlast).
    rewrite Hrun. unfold ret. cbn beta iota.
    rewrite (sendFinalResult_post t'), post_post.
    exists ms. split; [done|]. split; [done|].
    destruct (finalized events) as [|d ds].
    - by destruct (List.filter is_result ms).
    - destruct Hlast as [Hpc Hl]. exists (getLastChunkTimestamp t').
      rewrite Hl, Hpc. reflexivity. }
  unfold engine_of in He. destruct (instance w) as [p'|] eqn:Hi.
  - injection He as ->.
    rewrite (transcribe_with_instance factory audio w p Hi).
    destruct (Hreq (post w [MsgLoading "loading"; MsgLoading "success"]))
      as (ms & Hrun & Hall & Hlast).
    rewrite Hrun. eexists _, [], ms. split; [reflexivity|].
    split; [cbn [post outbox]; rewrite <- app_assoc; reflexivity|].
    split; [constructor|]. split; [exact Hall | exact Hlast].
  - destruct (load_result (factory (pipeline_calls w) task None))
      as [p'|msg] eqn:Hload; [|discriminate].
    injection He as ->.
    rewrite (transcribe_building factory audio w p Hi Hload).
    set (w1 := {| instance := Some p |}).
    destruct (Hreq w1) as (ms & Hrun & Hall & Hlast).
    rewrite Hrun.
    exists (post w1 (ms ++ [MsgInferenceDone])),
      (downloading_messages
         (progress_events (factory (pipeline_calls w) task None))), ms.
    split; [reflexivity|].
    split.
    { subst w1. cbn [post outbox].
      repeat (rewrite <- app_assoc; cbn [app]). reflexivity. }
    split; [apply downloading_messages_kind|].
    split; [exact Hall | exact Hlast].
Qed.

(** A request that fails. *)
Lemma transcribe_fails audio w :
  request_fails factory w audio ->
  exists e w' downs ms,
    transcribe factory audio w = (Throw e, w')
    /\ outbox w'
       = outbox w
         ++ MsgLoading "loading" :: downs ++ MsgLoading "success" :: ms
    /\ Forall (fun m => msg_type m = DOWNLOADING) downs
    /\ Forall (fun m => msg_type m = RESULT \/ msg_type m = RESULT_PARTIAL) ms.
Proof.
  unfold request_fails, engine_of. intros Hfail.
  destruct (instance w) as [p|] eqn:Hi.
  - destruct Hfail as [m Hm].
    rewrite (transcribe_with_instance factory audio w p Hi).
    destruct (run_request_spec p audio
                (post w [MsgLoading "loading"; MsgLoading "success"]))
      as (c & ms & Hrun & Hc & ms0 & Hall & _ & Hms).
    rewrite Hm in Hc, Hms. destruct Hc as [e ->].
    rewrite (Hms ltac:(done)) in Hrun. rewrite Hrun.
    eexists e, _, [], ms0. split; [reflexivity|].
    simpl. rewrite <- app_assoc. by repeat split.
  - destruct (load_result (factory (pipeline_calls w) task None))
      as [p|msg] eqn:Hload.
    + destruct Hfail as [m Hm].
      rewrite (transcribe_building factory audio w p Hi Hload).
      set (w1 := {| instance := Some p |}).
      destruct (run_request_spec p audio w1)
        as (c & ms & Hrun & Hc & ms0 & Hall & _ & Hms).
      rewrite Hm in Hc, Hms. destruct Hc as [e ->].
      rewrite (Hms ltac:(done)) in Hrun. rewrite Hrun.
      exists e, (post w1 ms0),
        (downloading_messages
           (progress_events (factory (pipeline_calls w) task None))), ms0.
      split; [reflexivity|].
      split.
      { subst w1. cbn [post outbox].
        repeat (rewrite <- app_assoc; cbn [app]). reflexivity. }
      split; [apply downloading_messages_kind | done].
    + rewrite (transcribe_load_failure factory audio w msg Hi Hload).
      eexists _, _,
        (downloading_messages
           (progress_events (factory (pipeline_calls w) task None))), [].
      split; [reflexivity|]. cbn [outbox].
      split; [reflexivity|].
      split; [apply downloading_messages_kind | constructor].
Qed.

(** The page after the messages of one request. *)
Lemma receive_request (downs ms fin : list Message) a :
  Forall (fun m => msg_type m = DOWNLOADING) downs ->
  Forall (fun m => msg_type m = RESULT \/ msg_type m = RESULT_PARTIAL) ms ->
  fin = [] \/ fin = [MsgInferenceDone] ->
  forall a',
    a' = receive_all value
           (MsgLoading "loading" :: downs ++ MsgLoading "success" :: ms ++ fin)
           a ->
    loading a' = true
    /\ finished a' = match fin with [] => finished a | _ => true end
    /\ output a'
       = match last (List.filter is_result ms) with
         | Some m => data_results m
         | None => output a
         end.
Proof.
  intros Hd Hm Hfin a' ->.
  rewrite (receive_all_cons value), (receive_all_app value),
    (receive_all_cons value), (receive_all_app value).
  rewrite !(onMessageReceived_eq value presets).
  set (a1 := app_log (LogText "LOADING") (setLoading true a)).
  set (a2 := receive_all value downs a1).
  set (a3 := app_log (LogText "LOADING") (setLoading true a2)).
  set (a4 := receive_all value ms a3).
  destruct (receive_downloading value presets downs a1 Hd) as (D1 & D2 & D3).
  destruct (receive_updates value presets ms a3 Hm) as (U1 & U2 & U3).
  fold a2 in D1, D2, D3. fold a4 in U1, U2, U3.
  assert (L3 : loading a3 = true) by reflexivity.
  assert (F3 : finished a3 = finished a) by exact D3.
  assert (O3 : output a3 = output a) by exact D1.
  destruct Hfin as [-> | ->].
  - change (receive_all value [] a4) with a4.
    by rewrite U1, U2, U3, L3, F3, O3.
  - rewrite (receive_all_cons value), (onMessageReceived_eq value presets).
    change (receive_all value [] ?x) with x. simpl.
    by rewrite U1, U3, L3, O3.
Qed.

(** X16. After a request that runs to its end and finalizes at least one
    chunk, the page shows the result screen with the whole merged and
    processed sequence, marked finished. *)
Theorem page_shows_the_full_transcript a w p (d : EventData Audio)
    (events : list (EngineEvent Token ChunkData)) :
  handleFormSubmission readAudioFrom a = Some d ->
  engine_of factory w = Some p ->
  call p (audio d) (run_options 5) = (events, Resolved) ->
  Forall (fun ev => has_beam ev = true) events ->
  finalized events <> [] ->
  let this0 :=
    {| this_pipeline := p; stride_length_s := 5; chunks := [];
       time_precision :=
         number_div (config_chunk_length p) (config_max_source_positions p);
       processed_chunks := []; callbackFunctionCounter := 0 |} in
  let segments :=
    imap (fun i c => processChunk this0 c i)
      (snd (tokenizer_decode_asr p (finalized events) (time_precision this0)))
  in
  render (fst (submit value readAudioFrom factory a w))
  = InformationView segments true.
Proof.
  intros Hsub He Hcall Hbeams Hne. cbv zeta.
  unfold submit. rewrite Hsub. cbv zeta. simpl fst.
  destruct (handleFormSubmission_request a d Hsub) as (Hreq & _).
  rewrite dispatch_eq, Hreq.
  destruct (transcribe_resolved (audio d) w p events He Hcall Hbeams)
    as (w' & downs & ms & Htr & Hout & Hd & Hm & Hlast).
  rewrite Htr. simpl snd. rewrite (new_messages_app w w' _ Hout).
  set (a' := receive_all value _ a).
  destruct (receive_request downs ms [MsgInferenceDone] a Hd Hm
              ltac:(by right) a' eq_refl) as (H1 & H2 & H3).
  unfold render. rewrite H3, H2.
  destruct (finalized events) as [|x xs]; [done|].
  destruct Hlast as [completed Hl]. rewrite Hl. reflexivity.
Qed.

(** X17. After a request that runs to its end without finalizing a chunk,
    the page has [finished] set but no output: a page that had none stays
    on the Transcribing screen. *)
Theorem page_without_chunks_stays_transcribing a w p (d : EventData Audio)
    (events : list (EngineEvent Token ChunkData)) :
  handleFormSubmission readAudioFrom a = Some d ->
  engine_of factory w = Some p ->
  call p (audio d) (run_options 5) = (events, Resolved) ->
  Forall (fun ev => has_beam ev = true) events ->
  finalized events = [] ->
  output a = None ->
  let a' := fst (submit value readAudioFrom factory a w) in
  finished a' = true /\ output a' = None /\ render a' = TranscribingView.
Proof.
  intros Hsub He Hcall Hbeams Hnil Ho. cbv zeta.
  unfold submit. rewrite Hsub. cbv zeta. simpl fst.
  destruct (handleFormSubmission_request a d Hsub) as (Hreq & _).
  rewrite dispatch_eq, Hreq.
  destruct (transcribe_resolved (audio d) w p events He Hcall Hbeams)
    as (w' & downs & ms & Htr & Hout & Hd & Hm & Hlast).
  rewrite Htr. simpl snd. rewrite (new_messages_app w w' _ Hout).
  set (a' := receive_all value _ a).
  destruct (receive_request downs ms [MsgInferenceDone] a Hd Hm
              ltac:(by right) a' eq_refl) as (H1 & H2 & H3).
  rewrite Hnil in Hlast. rewrite Hlast in H3. simpl in H3.
  unfold render. rewrite H3, H2, Ho, H1. done.
Qed.

(** X18. A request that fails tells the page nothing: [loading] is set,
    [finished] is left as it was, and a page without output stays on the
    Transcribing screen unless a Result came before the failure. *)
Theorem page_of_failed_request_never_finishes a w (d : EventData Audio) :
  handleFormSubmission readAudioFrom a = Some d ->
  request_fails factory w (audio d) ->
  let a' := fst (submit value readAudioFrom factory a w) in
  loading a' = true
  /\ finished a' = finished a
  /\ (output a' = None -> render a' = TranscribingView).
Proof.
  intros Hsub Hfail. cbv zeta.
  unfold submit. rewrite Hsub. cbv zeta. simpl fst.
  destruct (handleFormSubmission_request a d Hsub) as (Hreq & _).
  rewrite dispatch_eq, Hreq.
  destruct (transcribe_fails (audio d) w Hfail)
    as (e & w' & downs & ms & Htr & Hout & Hd & Hm).
  rewrite Htr. simpl snd.
  rewrite <- (app_nil_r ms) in Hout.
  rewrite (new_messages_app w w' _ Hout).
  set (a' := receive_all value _ a).
  destruct (receive_request downs ms [] a Hd Hm ltac:(by left) a' eq_refl)
    as (H1 & H2 & H3).
  split; [done|]. split; [done|].
  intros Ho. unfold render. by rewrite Ho, H1.
Qed.

End SubmitProperties.

(** ** The result screen *)

Lemma Information_onMessageReceived_translating (m : TranslationMessage)
    (s : InformationState) :
  String.eqb (t_status m) "complete" = false ->
  is_translating (Information_onMessageReceived m s) = is_translating s
  /\ toLanguage (Information_onMessageReceived m s) = toLanguage s.
Proof.
  intros Hc. unfold Information_onMessageReceived. rewrite Hc.
  by repeat destruct (String.eqb _ _).
Qed.

(** X19. At most one translation is in flight: a click on Translate posts
    a request exactly when none is in progress and a language is selected;
    the request carries the texts of the segments in order, from eng_Latn to
    the selected language; and from then on, until the worker's "complete"
    message, no click posts another. After "complete" the next click posts
    again. *)
Theorem one_translation_in_flight (output : list ProcessedChunk)
    (s : InformationState) :
  (forall s' r,
      generateTranslation output s = (s', Some r) ->
      is_translating s = false
      /\ toLanguage s <> "Select language"
      /\ r = {| req_text := map p_text output; src_lang := "eng_Latn";
                tgt_lang := toLanguage s |}
      /\ is_translating s' = true)
  /\ (is_translating s = false -> toLanguage s <> "Select language" ->
      exists s' r, generateTranslation output s = (s', Some r))
  /\ (forall evs,
         is_translating s = true ->
         forallb (fun ev => negb (is_complete ev)) evs = true ->
         snd (Information_run s evs) = []
         /\ is_translating (fst (Information_run s evs)) = true)
  /\ (forall m,
         t_status m = "complete" ->
         is_translating (Information_onMessageReceived m s) = false
         /\ toLanguage (Information_onMessageReceived m s) = toLanguage s).
Proof.
  split; [|split; [|split]].
  - intros s' r. unfold generateTranslation.
    destruct (is_translating s) eqn:Ht; simpl; [discriminate|].
    destruct (String.eqb_spec (toLanguage s) "Select language");
      [discriminate|].
    intros [= <- <-]. by repeat split.
  - intros Ht Hl. unfold generateTranslation. rewrite Ht. simpl.
    destruct (String.eqb_spec (toLanguage s) "Select language"); [done|].
    by eexists _, _.
  - intros evs. revert s. induction evs as [|[o ev] evs IH]; intros s Ht Hev.
    + by split.
    + simpl in Hev. apply andb_true_iff in Hev. destruct Hev as [Hc Hev].
      simpl.
      assert (Hstep : exists s', Information_step o s ev = (s', None)
                                 /\ is_translating s' = true).
      { destruct ev as [| v | v | m]; simpl.
        - unfold generateTranslation. rewrite Ht. simpl. by exists s.
        - by eexists.
        - by eexists.
        - eexists. split; [reflexivity|].
          unfold is_complete in Hc. simpl in Hc.
          apply negb_true_iff in Hc.
          by rewrite (proj1 (Information_onMessageReceived_translating
                               m s Hc)). }
      destruct Hstep as (s' & -> & Ht').
      destruct (IH s' Ht' Hev) as [H1 H2].
      destruct (Information_run s' evs) as [s'' reqs]. simpl in *.
      by split.
  - intros m Hm. unfold Information_onMessageReceived. rewrite Hm. by simpl.
Qed.

(** ** Concrete runs of the further properties *)

Lemma fallback_segment_lasts_4_or_5_seconds_witness :
  let segment :=
    processChunk (Scenario.tracker Scenario.malformed_second)
      (Scenario.chunk "partial" 1 None) 0 in
  (end_ segment - start segment = 4 \/ end_ segment - start segment = 5)%Z.
Proof.
  apply (fallback_segment_lasts_4_or_5_seconds
           (Scenario.tracker Scenario.malformed_second) "partial" 1 None 0).
  - reflexivity.
  - reflexivity.
Defined.

Lemma processed_timestamps_are_within_half_a_second_witness :
  let segment :=
    processChunk (Scenario.tracker Scenario.malformed_second)
      (Scenario.chunk "x" (inject_Z 3) (Some (inject_Z 5))) 0 in
  start segment = 3%Z /\ end_ segment = 5%Z.
Proof.
  apply (proj2 (proj2 (processed_timestamps_are_within_half_a_second
                         (Scenario.tracker Scenario.malformed_second)
                         "x" 0)) 3%Z 5%Z).
  discriminate.
Defined.

Lemma processed_starts_keep_order_witness :
  (start (processChunk (Scenario.tracker Scenario.malformed_second)
            (Scenario.chunk "a" 0%Q (Some (5 # 2)%Q)) 0)
   <= start (processChunk (Scenario.tracker Scenario.malformed_second)
               (Scenario.chunk "b" (5 # 2)%Q (Some 4%Q)) 1))%Z
  /\ end_ (processChunk (Scenario.tracker Scenario.malformed_second)
             (Scenario.chunk "a" 0%Q (Some (5 # 2)%Q)) 0)
     = start (processChunk (Scenario.tracker Scenario.malformed_second)
                (Scenario.chunk "b" (5 # 2)%Q (Some 4%Q)) 1).
Proof.
  destruct (processed_starts_keep_order
              (Scenario.tracker Scenario.malformed_second)
              (Scenario.chunk "a" 0%Q (Some (5 # 2)%Q))
              (Scenario.chunk "b" (5 # 2)%Q (Some 4%Q)) 0 1) as [H1 H2].
  - vm_compute. discriminate.
  - split; [exact H1|]. apply (H2 (5 # 2)%Q).
    + reflexivity.
    + reflexivity.
    + vm_compute. discriminate.
Defined.

Lemma results_and_partials_are_counted_apart_witness :
  exists this' ms,
    run_callbacks (Scenario.tracker Scenario.malformed_second)
      (ChunkFinalized (Scenario.chunk " one" 0 (Some 2))
         :: Scenario.numbered_updates 10
         ++ [ChunkFinalized (Scenario.chunk " two" 2 (Some 4))])
      Scenario.fresh
    = (Normal this', post Scenario.fresh ms)
    /\ List.length (List.filter is_partial ms) = 1%nat
    /\ List.length (List.filter is_result ms) = 2%nat.
Proof.
  destruct (results_and_partials_are_counted_apart
              (Scenario.tracker Scenario.malformed_second)
              (ChunkFinalized (Scenario.chunk " one" 0 (Some 2))
                 :: Scenario.numbered_updates 10
                 ++ [ChunkFinalized (Scenario.chunk " two" 2 (Some 4))])
              Scenario.fresh)
    as (this' & ms & Hrun & _ & Hp & Hr & _).
  - repeat constructor.
  - exists this', ms. split; [exact Hrun|]. split; [exact Hp | exact Hr].
Defined.


Lemma overlapping_requests_each_call_the_factory_witness :
  let s :=
    event_loop (Scenario.loads Scenario.malformed_second)
      [Deliver; Deliver]
      {| world := Scenario.fresh;
         inbox := [Scenario.request "a"; Scenario.request "b"];
         jobs := [] |} in
  pipeline_calls (world s) = 2%nat /\ instance (world s) = None.
Proof.
  destruct (proj1 (overlapping_requests_each_call_the_factory
                     (Scenario.loads Scenario.malformed_second)
                     Scenario.fresh
                     (Scenario.request "a") (Scenario.request "b") []
                     eq_refl eq_refl eq_refl))
    as (H1 & H2 & _).
  split; [exact H1 | exact H2].
Defined.

Lemma failed_load_is_tried_again_witness :
  let w1 :=
    dispatch (PageScenario.fails_once Scenario.malformed_second)
      Scenario.fresh (Scenario.request "a") in
  let w2 :=
    dispatch (PageScenario.fails_once Scenario.malformed_second) w1
      (Scenario.request "b") in
  instance w1 = None
  /\ console w1 = ["Failed to fetch"]
  /\ pipeline_calls w1 = 1%nat
  /\ instance w2 = Some (Scenario.engine Scenario.malformed_second)
  /\ pipeline_calls w2 = 2%nat.
Proof.
  exact (failed_load_is_tried_again
           (PageScenario.fails_once Scenario.malformed_second)
           Scenario.fresh (Scenario.engine Scenario.malformed_second)
           "Failed to fetch" (Scenario.request "a") (Scenario.request "b")
           eq_refl eq_refl eq_refl eq_refl eq_refl).
Defined.

Lemma PageScenario_presets : presets_as_named PageScenario.value.
Proof.
  repeat split. simpl. intros [H | [H | [H | [H | []]]]]; discriminate.
Defined.

Lemma page_progress_is_kept_witness :
  let a :=
    receive_all PageScenario.value
      [MsgResult [] false (JsNumber 0); MsgInferenceDone]
      PageScenario.with_file in
  let a' :=
    receive_all PageScenario.value
      [MsgLoading "loading"; MsgLoading "success"] a in
  finished a' = true
  /\ exists o' f', render a' = InformationView o' f'.
Proof.
  destruct (page_progress_is_kept PageScenario.value PageScenario_presets
              [MsgLoading "loading"; MsgLoading "success"]
              (receive_all PageScenario.value
                 [MsgResult [] false (JsNumber 0); MsgInferenceDone]
                 PageScenario.with_file))
    as (_ & _ & H3 & H4 & _).
  split; [apply H3; reflexivity|].
  apply (H4 [] true). reflexivity.
Defined.

Lemma page_ignores_partial_results_witness :
  receive_all PageScenario.value
    [ MsgResultPartial
        {| r_text := "J"; r_start := JsUndefined; r_end := JsUndefined |};
      MsgInferenceDone ]
    PageScenario.with_file
  = receive_all PageScenario.value [MsgInferenceDone] PageScenario.with_file.
Proof.
  exact (proj1 (page_ignores_partial_results PageScenario.value
                  PageScenario_presets
                  [ MsgResultPartial
                      {| r_text := "J"; r_start := JsUndefined;
                         r_end := JsUndefined |};
                    MsgInferenceDone ]
                  PageScenario.with_file)).
Defined.

Lemma page_shows_the_full_transcript_witness :
  render
    (fst (submit PageScenario.value PageScenario.decode_audio
            (Scenario.loads Scenario.malformed_second)
            PageScenario.with_file Scenario.fresh))
  = InformationView
      [ {| index := 0; p_text := "one"; start := 0; end_ := 2 |};
        {| index := 1; p_text := "two"; start := 5; end_ := 3 |};
        {| index := 2; p_text := "three"; start := 6; end_ := 8 |} ]
      true.
Proof.
  apply (page_shows_the_full_transcript
           PageScenario.value PageScenario.decode_audio
           (Scenario.loads Scenario.malformed_second) PageScenario_presets
           PageScenario.with_file Scenario.fresh
           (Scenario.engine Scenario.malformed_second)
           (Scenario.request "openai/whisper-tiny.en")
           (fst Scenario.malformed_second)).
  - reflexivity.
  - reflexivity.
  - reflexivity.
  - repeat constructor.
  - discriminate.
Defined.

Lemma page_without_chunks_stays_transcribing_witness :
  let a' :=
    fst (submit PageScenario.value PageScenario.decode_audio
           (Scenario.loads PageScenario.silent)
           PageScenario.with_file Scenario.fresh) in
  finished a' = true /\ output a' = None /\ render a' = TranscribingView.
Proof.
  apply (page_without_chunks_stays_transcribing
           PageScenario.value PageScenario.decode_audio
           (Scenario.loads PageScenario.silent) PageScenario_presets
           PageScenario.with_file Scenario.fresh
           (Scenario.engine PageScenario.silent)
           (Scenario.request "openai/whisper-tiny.en")
           (fst PageScenario.silent)).
  - reflexivity.
  - reflexivity.
  - reflexivity.
  - repeat constructor.
  - reflexivity.
  - reflexivity.
Defined.

Lemma page_of_failed_request_never_finishes_witness :
  let a' :=
    fst (submit PageScenario.value PageScenario.decode_audio
           Scenario.load_fails PageScenario.with_file Scenario.fresh) in
  loading a' = true /\ finished a' = false.
Proof.
  destruct (page_of_failed_request_never_finishes
              PageScenario.value PageScenario.decode_audio
              Scenario.load_fails PageScenario_presets
              PageScenario.with_file Scenario.fresh
              (Scenario.request "openai/whisper-tiny.en") eq_refl I)
    as (H1 & H2 & _).
  split; [exact H1 | exact H2].
Defined.

Lemma one_translation_in_flight_witness :
  let s := setToLanguage "fra_Latn" Information_initial in
  let s' := fst (generateTranslation [] s) in
  snd (Information_run s'
         [ ([], ClickTranslate);
           ([], WorkerMessage {| t_status := "update"; t_output := "oui" |});
           ([], SelectLanguage "deu_Latn");
           ([], ClickTranslate) ])
  = [].
Proof.
  apply (proj1 (proj2 (proj2 (one_translation_in_flight []
                                 (fst (generateTranslation []
                                         (setToLanguage "fra_Latn"
                                            Information_initial))))))
           [ ([], ClickTranslate);
             ([], WorkerMessage {| t_status := "update"; t_output := "oui" |});
             ([], SelectLanguage "deu_Latn");
             ([], ClickTranslate) ] eq_refl eq_refl).
Defined.
